(** * jestat: a small perf-stat built on the jevents session interface

    Shallow embedding of [jevents/examples/jestat.c].  The program parses
    its options, builds an event list through the jevents library, forks
    the measured command, opens the counters, waits (printing at every
    timer tick in interval mode) and finally reads and prints the counters.

    The jevents session library itself ([alloc_eventlist], [parse_events],
    [setup_events_cpumask], [read_all_events], [event_scaled_value],
    [print_event_list_attr]) and its headers are not part of the sources;
    the program is embedded over these functions, gathered in the class
    [Library], and module [Session] gives the model of them that the
    specification describes. *)

From Stdlib Require Import ZArith List String Bool Lia QArith Qround.
Import ListNotations.

Local Open Scope Z_scope.

(** ** Data model *)

(** [uint64_t]: values live in [0, 2^64), arithmetic wraps. *)
Definition u64_modulus : Z := 2 ^ 64.

Definition u64_add (a b : Z) : Z := (a + b) mod u64_modulus.

(** Modelled from the spec: [struct efd] is declared in the absent header
    [jevents.h].  The program reads only the field [fd]; the three
    counters are the last-read raw count, enabled time and running time
    the specification gives to a counter handle. *)
Record efd_t : Type := mk_efd {
  fd : Z;
  raw_count : Z;
  enabled_time : Z;
  running_time : Z
}.

(** Modelled from the spec: [struct event], as far as the program uses it:
    [e->event], [e->extra.name] (a nullable string), the per-CPU array
    [e->efd[]] (indexed without any bound check by the program) and the
    link [e->next], which becomes the list structure of [el_eventlist]. *)
Record event : Type := mk_event {
  ev_event : string;
  extra_name : option string;
  efd : nat -> efd_t
}.

(** Modelled from the spec: [struct eventlist] with the two fields the
    program reads, [el->eventlist] and [el->num_cpus] (an [int]). *)
Record eventlist : Type := mk_eventlist {
  el_eventlist : list event;
  num_cpus : Z
}.

(** [e->extra.name ? e->extra.name : e->event] *)
Definition display_name (e : event) : string :=
  match extra_name e with
  | Some n => n
  | None => ev_event e
  end.

(** The CPU indices visited by [for (i = 0; i < el->num_cpus; i++)]. *)
Definition cpu_indices (el : eventlist) : list nat :=
  seq 0 (Z.to_nat (num_cpus el)).

(** ** Observable actions

    Everything the program does to the outside world: library calls,
    system calls and output.  Times are microseconds as integers; the
    program divides by 1e6 in floating point only for display. *)
Inductive action : Type :=
| Setlocale
| Alloc_eventlist
| Parse_events (el : eventlist) (s : string) (ret : Z)
| Usage_message
| Fprintf_stderr (msg : string)
| Pipe
| Signal_sigchld_ignore
| Fork (ret : Z)
| Perror (msg : string)
| Child_read_pipe
| Child_pause
| Child_execvp (argv : list string)
| Child_write_stderr (msg : string)
| Setup_events_cpumask (el : eventlist) (measure_all : bool)
    (measure_pid : Z) (cpumask : option string) (ret : Z)
| Print_event_list_attr (el : eventlist) (lines : list string)
| Signal_sigint
| Sigaction_sigalrm
| Setitimer (sec usec : Z)
| Write_pipe
| Waitpid (pid : Z) (ret : Z)
| Pause (ret : Z)
| Read_all_events (el : eventlist)
| Event_scaled_value (e : event) (cpu : nat) (ret : Z)
| Printf_ts (ts : Z)
| Printf_aggr (name : string) (v : Z)
| Printf_cpu (cpu : nat) (name : string) (v : Z).

(** ** Printing *)

Section Printing.

(** [event_scaled_value] of the library, as the program sees it: a
    function of the event and the CPU index returning a [uint64_t]. *)
Variable event_scaled_value : event -> nat -> Z.

(** The inner loop of [print_data_aggr]:
    [for (i = 0; i < el->num_cpus; i++) v += event_scaled_value(e, i);]
    over the remaining indices [cpus], from the accumulator [v].  Every
    call of [event_scaled_value] is logged. *)
Fixpoint aggr_cpus (e : event) (cpus : list nat) (v : Z) : Z * list action :=
  match cpus with
  | [] => (v, [])
  | i :: rest =>
      let x := event_scaled_value e i in
      let '(v', t) := aggr_cpus e rest (u64_add v x) in
      (v', Event_scaled_value e i x :: t)
  end.

Definition print_ts_prefix (ts : Z) (print_ts : bool) : list action :=
  if print_ts then [Printf_ts ts] else [].

(** One iteration of the outer loop of [print_data_aggr]. *)
Definition print_event_aggr (el : eventlist) (ts : Z) (print_ts : bool)
    (e : event) : list action :=
  let '(v, t) := aggr_cpus e (cpu_indices el) 0 in
  t ++ print_ts_prefix ts print_ts ++ [Printf_aggr (display_name e) v].

Definition print_data_aggr (el : eventlist) (ts : Z) (print_ts : bool)
    : list action :=
  flat_map (print_event_aggr el ts print_ts) (el_eventlist el).

(** The inner loop of [print_data_no_aggr]. *)
Fixpoint no_aggr_cpus (ts : Z) (print_ts : bool) (e : event)
    (cpus : list nat) : list action :=
  match cpus with
  | [] => []
  | i :: rest =>
      if fd (efd e i) <? 0 then no_aggr_cpus ts print_ts e rest
      else
        let v := event_scaled_value e i in
        Event_scaled_value e i v
          :: print_ts_prefix ts print_ts
          ++ Printf_cpu i (display_name e) v
          :: no_aggr_cpus ts print_ts e rest
  end.

Definition print_data_no_aggr (el : eventlist) (ts : Z) (print_ts : bool)
    : list action :=
  flat_map (fun e => no_aggr_cpus ts print_ts e (cpu_indices el))
           (el_eventlist el).

Definition print_data (el : eventlist) (ts : Z) (print_ts no_aggr : bool)
    : list action :=
  if no_aggr then print_data_no_aggr el ts print_ts
  else print_data_aggr el ts print_ts.

(** A target is valid when its handle is a real descriptor. *)
Definition valid_target (e : event) (i : nat) : bool :=
  0 <=? fd (efd e i).

(** The sum of the scaled values of the valid targets of [e]. *)
Definition valid_sum (el : eventlist) (e : event) : Z :=
  fold_right Z.add 0
    (map (event_scaled_value e) (filter (valid_target e) (cpu_indices el))).

(** The sum of the scaled values of all targets of [e]. *)
Definition all_sum (el : eventlist) (e : event) : Z :=
  fold_right Z.add 0 (map (event_scaled_value e) (cpu_indices el)).

End Printing.

(** ** The jevents session library, as the specification describes it *)

Module Session.

(** Truncation of a rational towards zero. *)
Definition Qtrunc (q : Q) : Z := Z.quot (Qnum q) (Zpos (Qden q)).

(** Modelled from the spec: the scaled value of a handle (section 3,
    ScaledValue), [raw_count * (enabled_time / running_time)] truncated
    to an integer when [running_time > 0], unavailable otherwise.  The
    body of [event_scaled_value] is not part of the sources. *)
Definition scaled_value (h : efd_t) : option Z :=
  if 0 <? running_time h then
    Some (Qtrunc (inject_Z (raw_count h)
                  * (inject_Z (enabled_time h) / inject_Z (running_time h))))
  else None.

(** Modelled from the spec: the kernel side of the counters.  Reading a
    descriptor yields the raw count, the enabled time and the running
    time, or fails. *)
Definition kernel : Type := Z -> option (Z * Z * Z).

(** Modelled from the spec: one handle of a read pass (section 4.3 and
    section 7 (c)).  A handle that is not applicable is left alone; a
    read replaces the previous snapshot; a failed read leaves a snapshot
    with no running time, whose scaled value is unavailable. *)
Definition read_event (k : kernel) (h : efd_t) : efd_t :=
  if fd h <? 0 then h
  else match k (fd h) with
       | Some (r, en, run) => mk_efd (fd h) r en run
       | None => mk_efd (fd h) 0 0 0
       end.

(** Modelled from the spec: [read_all_events] refreshes every handle of
    every event, for the targets [0 .. num_cpus - 1]. *)
Definition read_all_events (k : kernel) (el : eventlist) : eventlist :=
  mk_eventlist
    (map (fun e =>
            mk_event (ev_event e) (extra_name e)
              (fun i => if Z.of_nat i <? num_cpus el
                        then read_event k (efd e i) else efd e i))
         (el_eventlist el))
    (num_cpus el).

Section Policy.

(** The specification leaves open what a caller receives for a handle
    whose scaled value is unavailable; the value is a parameter. *)
Variable unavailable : Z.

(** Modelled from the spec: [event_scaled_value(e, cpu)] (section 4.3)
    is the scaled value of the handle of [e] for target [cpu]. *)
Definition event_scaled_value (e : event) (cpu : nat) : Z :=
  match scaled_value (efd e cpu) with
  | Some v => v
  | None => unavailable
  end.

End Policy.

Section Parsing.

(** Resolution of a specification string into event definitions
    (tokens, braces, the event database) is outside the sources. *)
Variable resolve : string -> option (list event).

(** Modelled from the spec: [parse_events] (section 4.1) appends the
    events of the string to the caller's list, in order; a string
    that does not resolve fails and is never partially applied. *)
Definition parse_events (el : eventlist) (s : string) : Z * eventlist :=
  match resolve s with
  | Some evs => (0, mk_eventlist (el_eventlist el ++ evs) (num_cpus el))
  | None => (-1, el)
  end.

End Parsing.

Section Attaching.

(** Membership of a CPU index in a mask string such as ["0,2-3"] and
    the low-level open call are outside the sources. *)
Variable cpu_in_mask : string -> nat -> bool.
Variable perf_event_open : event -> nat -> Z -> option Z.

(** Modelled from the spec: the CPU-mask rule (section 4.2); without a
    mask every target is applicable. *)
Definition applicable (cpumask : option string) (i : nat) : bool :=
  match cpumask with
  | Some m => cpu_in_mask m i
  | None => true
  end.

(** Modelled from the spec: opens the handles of [e] for the targets
    [cpus]; a target outside the mask gets the sentinel; [None] when an
    open fails. *)
Fixpoint open_targets (e : event) (pid : Z) (cpumask : option string)
    (cpus : list nat) : option (list (nat * Z)) :=
  match cpus with
  | [] => Some []
  | i :: rest =>
      if applicable cpumask i then
        match perf_event_open e i pid with
        | Some d =>
            match open_targets e pid cpumask rest with
            | Some fds => Some ((i, d) :: fds)
            | None => None
            end
        | None => None
        end
      else
        match open_targets e pid cpumask rest with
        | Some fds => Some ((i, -1) :: fds)
        | None => None
        end
  end.

(** The descriptor opened for target [i]; the sentinel when there is
    none. *)
Fixpoint lookup_fd (fds : list (nat * Z)) (i : nat) : Z :=
  match fds with
  | [] => -1
  | (j, d) :: rest => if Nat.eqb i j then d else lookup_fd rest i
  end.

(** Modelled from the spec: opens the handles of every event; a fresh
    handle has no count yet. *)
Fixpoint open_events (evs : list event) (pid : Z)
    (cpumask : option string) (cpus : list nat) : option (list event) :=
  match evs with
  | [] => Some []
  | e :: rest =>
      match open_targets e pid cpumask cpus with
      | Some fds =>
          match open_events rest pid cpumask cpus with
          | Some evs' =>
              Some (mk_event (ev_event e) (extra_name e)
                      (fun i => mk_efd (lookup_fd fds i) 0 0 0) :: evs')
          | None => None
          end
      | None => None
      end
  end.

(** Modelled from the spec: [setup_events_cpumask] (section 4.2).  One
    handle per event and applicable target; a CPU outside the mask
    gets the sentinel [-1], which is no error; a failing open fails
    the whole call.  A fresh handle has a zero snapshot, which the
    specification recommends. *)
Definition setup_events_cpumask (el : eventlist) (measure_all : bool)
    (measure_pid : Z) (cpumask : option string) : Z * eventlist :=
  match open_events (el_eventlist el)
          (if measure_all then -1 else measure_pid) cpumask
          (cpu_indices el) with
  | Some evs => (0, mk_eventlist evs (num_cpus el))
  | None => (-1, el)
  end.

(** Modelled from the spec: the diagnostic dump (section 6), one line
    per handle; the text of a line is not specified. *)
Definition print_event_list_attr (attr_line : event -> nat -> string)
    (el : eventlist) : list string :=
  flat_map (fun e => map (attr_line e) (cpu_indices el)) (el_eventlist el).

End Attaching.

End Session.

(** ** The program *)

(** How a run ends: [exit(n)], [_exit(n)] or [return n] from [main]; a
    successful [execvp] in the child; the parent still blocked in
    [waitpid] or [pause] when the recorded environment is used up; or the
    child blocked for good, in a [read] of a pipe that is never written
    or in a [pause] that no handler can end. *)
Inductive outcome : Type :=
| Exited (status : Z)
| Replaced
| Waiting
| Blocked.

(** A computation emits actions and either yields a value or ends the run. *)
Definition M (A : Type) : Type := list action * (A + outcome).

Definition ret {A : Type} (a : A) : M A := ([], inl a).

Definition bind {A B : Type} (m : M A) (f : A -> M B) : M B :=
  match m with
  | (t, inl a) => let '(t', r) := f a in (t ++ t', r)
  | (t, inr o) => (t, inr o)
  end.

Definition emit (a : action) : M unit := ([a], inl tt).

Definition emits (t : list action) : M unit := (t, inl tt).

Definition stop {A : Type} (o : outcome) : M A := ([], inr o).

Notation "x <- m ;; k" := (bind m (fun x => k))
  (at level 61, m at next level, right associativity).
Notation "m ;;; k" := (bind m (fun _ => k))
  (at level 61, right associativity).

(** What [getopt_long(ac, av, "ae:p:I:C:Av", opts, NULL)] returns, with
    [optarg] where the option takes one.  [-p] is accepted by the option
    string but has no case in the switch; [Opt_unknown] is ['?']. *)
Inductive opt : Type :=
| Opt_a
| Opt_e (optarg : string)
| Opt_p (optarg : string)
| Opt_I (optarg : string)
| Opt_C (optarg : string)
| Opt_A
| Opt_v
| Opt_unknown.

(** The local variables of [main] that the option loop sets. *)
Record locals : Type := mk_locals {
  events : option string;
  el : eventlist;
  measure_all : bool;
  interval : Z;
  cpumask : option string;
  no_aggr : bool;
  verbose : Z
}.

(** The globals [gotalarm] and [starttime] (0 until first set). *)
Record globals : Type := mk_globals {
  gotalarm : bool;
  starttime : Z
}.

(** [char *events = "instructions,cpu-cycles,cache-misses,cache-references"] *)
Definition default_events : string :=
  "instructions,cpu-cycles,cache-misses,cache-references"%string.

(** The functions the program calls that are not part of the sources:
    the jevents session interface and [atoi] of the C library.  [kernel]
    is the state of the kernel counters, opaque to the program, which
    [read_all_events] consults.  A function that takes the list by
    pointer and may update it returns the new list next to its [int]
    result.  [event_scaled_value] and [print_event_list_attr] only look
    at the list: the first returns a [uint64_t], the second the lines it
    writes to [stdout]. *)
Class Library : Type := {
  kernel : Type;
  alloc_eventlist : eventlist;
  parse_events : eventlist -> string -> Z * eventlist;
  setup_events_cpumask :
    eventlist -> bool -> Z -> option string -> Z * eventlist;
  read_all_events : kernel -> eventlist -> eventlist;
  event_scaled_value : event -> nat -> Z;
  print_event_list_attr : eventlist -> list string;
  atoi : string -> Z
}.

Section Program.

Context {L : Library}.

(** One return of [waitpid] or [pause]: its result, whether [SIGALRM]
    was delivered meanwhile, the counters at that moment and the two
    clock readings [cont_measure] may take. *)
Record wake : Type := mk_wake {
  w_ret : Z;
  w_sigalrm : bool;
  w_kernel : kernel;
  w_time_start : Z;
  w_time : Z
}.

(** What the operating system does during one run.  [env_released]
    tells, for the child, whether the byte the parent writes after a
    successful setup ever arrives on the pipe. *)
Record environment : Type := mk_environment {
  env_fork : Z;
  env_execvp_ok : bool;
  env_wakes : list wake;
  env_kernel : kernel;
  env_time : Z;
  env_released : bool
}.

(** The locals as [main] initialises them, with the list
    [alloc_eventlist()] returns. *)
Definition init_locals : locals :=
  mk_locals (Some default_events) alloc_eventlist false 0 None false 0.

(** [usage()]: the usage text on standard error, then [exit(1)]. *)
Definition usage {A : Type} : M A :=
  emit Usage_message ;;; stop (Exited 1).

(** The body of the [switch] for one option. *)
Definition handle_opt (o : opt) (l : locals) : M locals :=
  match o with
  | Opt_e optarg =>
      let '(r, el') := parse_events (el l) optarg in
      emit (Parse_events (el l) optarg r) ;;;
      if r <? 0 then stop (Exited 1)
      else ret (mk_locals None el' (measure_all l) (interval l)
                  (cpumask l) (no_aggr l) (verbose l))
  | Opt_a =>
      ret (mk_locals (events l) (el l) true (interval l)
             (cpumask l) (no_aggr l) (verbose l))
  | Opt_I optarg =>
      ret (mk_locals (events l) (el l) (measure_all l) (atoi optarg)
             (cpumask l) (no_aggr l) (verbose l))
  | Opt_C optarg =>
      ret (mk_locals (events l) (el l) (measure_all l) (interval l)
             (Some optarg) (no_aggr l) (verbose l))
  | Opt_A =>
      ret (mk_locals (events l) (el l) (measure_all l) (interval l)
             (cpumask l) true (verbose l))
  | Opt_v =>
      (* [verbose++] on an [int]; the count is kept unbounded, as it is
         in C for fewer than 2^31 occurrences of [-v] *)
      ret (mk_locals (events l) (el l) (measure_all l) (interval l)
             (cpumask l) (no_aggr l) (verbose l + 1))
  | Opt_p _ | Opt_unknown => usage
  end.

(** [while ((opt = getopt_long(...)) != -1) switch (opt) ...] *)
Fixpoint getopt_loop (opts : list opt) (l : locals) : M locals :=
  match opts with
  | [] => ret l
  | o :: rest => l' <- handle_opt o l ;; getopt_loop rest l'
  end.

(** [if (events && parse_events(el, events) < 0) exit(1);] *)
Definition parse_default (l : locals) : M eventlist :=
  match events l with
  | Some s =>
      let '(r, el') := parse_events (el l) s in
      emit (Parse_events (el l) s r) ;;;
      if r <? 0 then stop (Exited 1) else ret el'
  | None => ret (el l)
  end.

(** The child after [fork]: waits on the pipe, then pauses or executes
    the command.  The [read] returns only once the parent has written:
    the child itself keeps the write end open, so the end of the parent
    does not end the [read].  [pause] returns only after a signal handler
    has run, and the child has none: the only disposition set before
    [fork] is [SIG_IGN] for [SIGCHLD], the handlers of [SIGINT] and
    [SIGALRM] are installed later and in the parent only.  The
    [_exit(0)] that follows [pause()] is therefore never reached. *)
Definition child (env : environment) (prog : list string) : M unit :=
  emit Child_read_pipe ;;;
  if env_released env then
    match prog with
    | [] => emit Child_pause ;;; stop Blocked
    | _ :: _ =>
        emit (Child_execvp prog) ;;;
        if env_execvp_ok env then stop Replaced
        else emit (Child_write_stderr "Cannot execute program
"%string) ;;; stop (Exited 1)
    end
  else stop Blocked.

(** [cont_measure(ret, el, no_aggr)]: the actions, the returned flag and
    the updated globals and event list. *)
Definition cont_measure (w : wake) (g : globals) (e : eventlist)
    (no_aggr : bool) : list action * (bool * globals * eventlist) :=
  if (w_ret w <? 0) && gotalarm g then
    let e' := read_all_events (w_kernel w) e in
    let start := if starttime g =? 0 then w_time_start w else starttime g in
    (Read_all_events e
       :: print_data event_scaled_value e' (w_time w - start) true no_aggr,
     (true, mk_globals false start, e'))
  else ([], (false, g, e)).

(** [for (;;) { ret = wait(); if (!cont_measure(ret, el, no_aggr)) break; }]
    where [wait] is [waitpid(measure_pid, NULL, 0)] or [pause()].  The
    handler of [SIGALRM] sets [gotalarm] when it is installed. *)
Fixpoint measure_loop (wait : Z -> action) (armed : bool)
    (ws : list wake) (g : globals) (e : eventlist) (no_aggr : bool)
    : M (globals * eventlist) :=
  match ws with
  | [] => stop Waiting
  | w :: rest =>
      let g1 := mk_globals (gotalarm g || (armed && w_sigalrm w))
                           (starttime g) in
      emit (wait (w_ret w)) ;;;
      let '(t, (continue, g2, e2)) := cont_measure w g1 e no_aggr in
      emits t ;;;
      if continue then measure_loop wait armed rest g2 e2 no_aggr
      else ret (g2, e2)
  end.

(** [if (interval) { ... sigaction(SIGALRM, ...); setitimer(...); }] *)
Definition arm_timer (itv : Z) : M unit :=
  if itv =? 0 then ret tt
  else emit Sigaction_sigalrm ;;;
       emit (Setitimer (Z.quot itv 1000) (Z.rem itv 1000 * 1000)).

(** [if (verbose) print_event_list_attr(el, stdout);] *)
Definition dump_attr (l : locals) (e : eventlist) : M unit :=
  if verbose l =? 0 then ret tt
  else emit (Print_event_list_attr e (print_event_list_attr e)).

(** The two waiting loops, chosen by [if (child_pid >= 0)]. *)
Definition wait_loops (env : environment) (l : locals) (e : eventlist)
    (measure_pid : Z) : M (globals * eventlist) :=
  let armed := negb (interval l =? 0) in
  if 0 <=? measure_pid then
    emit Write_pipe ;;;
    measure_loop (Waitpid measure_pid) armed (env_wakes env)
      (mk_globals false 0) e (no_aggr l)
  else
    measure_loop Pause armed (env_wakes env)
      (mk_globals false 0) e (no_aggr l).

(** The last read and report, and [return 0]. *)
Definition final_report (env : environment) (l : locals)
    (ge : globals * eventlist) : M unit :=
  let '(g, e) := ge in
  let e' := read_all_events (env_kernel env) e in
  emit (Read_all_events e) ;;;
  emits (print_data event_scaled_value e' (env_time env - starttime g)
           (negb (interval l =? 0) && negb (starttime g =? 0))
           (no_aggr l)) ;;;
  stop (Exited 0).

(** The parent once the counters are open: from [signal(SIGINT, sigint)]
    to [return 0]. *)
Definition run_measurement (env : environment) (l : locals)
    (e : eventlist) (measure_pid : Z) : M unit :=
  emit Signal_sigint ;;;
  arm_timer (interval l) ;;;
  ge <- wait_loops env l e measure_pid ;;
  final_report env l ge.

(** The parent from [setup_events_cpumask] on. *)
Definition measure (env : environment) (l : locals) (e : eventlist)
    (measure_pid : Z) : M unit :=
  let '(r, e1) :=
    setup_events_cpumask e (measure_all l) measure_pid (cpumask l) in
  emit (Setup_events_cpumask e (measure_all l) measure_pid (cpumask l) r) ;;;
  (if r <? 0 then stop (Exited 1) else ret tt) ;;;
  dump_attr l e1 ;;;
  run_measurement env l e1 measure_pid.

(** [if (av[optind] == NULL && !measure_all) { fprintf(...); exit(1); }] *)
Definition check_command (l : locals) (prog : list string) : M unit :=
  match prog with
  | [] => if measure_all l then ret tt
          else emit (Fprintf_stderr "Specify command or -a
"%string) ;;; stop (Exited 1)
  | _ :: _ => ret tt
  end.

(** The three ways on from [fork]. *)
Definition after_fork (env : environment) (l : locals) (e : eventlist)
    (prog : list string) : M unit :=
  if env_fork env <? 0 then emit (Perror "fork"%string) ;;; stop (Exited 1)
  else if env_fork env =? 0 then child env prog
  else measure env l e (env_fork env).

(** [main]: [opts] is the sequence of options [getopt_long] returns and
    [prog] the remaining arguments [av + optind] (empty when
    [av[optind] == NULL]). *)
Definition main (env : environment) (opts : list opt) (prog : list string)
    : M unit :=
  emit Setlocale ;;;
  emit Alloc_eventlist ;;;
  l <- getopt_loop opts init_locals ;;
  check_command l prog ;;;
  e <- parse_default l ;;
  emit Pipe ;;;
  emit Signal_sigchld_ignore ;;;
  emit (Fork (env_fork env)) ;;;
  after_fork env l e prog.

(** The calls of [parse_events] a list of strings gives rise to when
    each is parsed into the list the previous one left. *)
Fixpoint parse_chain (e : eventlist) (ss : list string) : list action :=
  match ss with
  | [] => []
  | s :: rest =>
      Parse_events e s (fst (parse_events e s))
        :: parse_chain (snd (parse_events e s)) rest
  end.

(** The actions of a run and how it ends.  [main] always ends through
    [stop]; a computation with a value left counts as still waiting. *)
Definition trace (r : M unit) : list action := fst r.

Definition result (r : M unit) : outcome :=
  match snd r with
  | inl _ => Waiting
  | inr o => o
  end.

End Program.

(** ** Classification of actions *)

Definition is_parse (a : action) : bool :=
  match a with Parse_events _ _ _ => true | _ => false end.

Definition is_setup (a : action) : bool :=
  match a with Setup_events_cpumask _ _ _ _ _ => true | _ => false end.

Definition is_setup_ok (a : action) : bool :=
  match a with Setup_events_cpumask _ _ _ _ r => 0 <=? r | _ => false end.

Definition is_fork (a : action) : bool :=
  match a with Fork _ => true | _ => false end.

Definition is_read (a : action) : bool :=
  match a with Read_all_events _ => true | _ => false end.

Definition is_dump (a : action) : bool :=
  match a with Print_event_list_attr _ _ => true | _ => false end.

(** A line of counter values on standard output. *)
Definition is_value_line (a : action) : bool :=
  match a with
  | Printf_aggr _ _ | Printf_cpu _ _ _ => true
  | _ => false
  end.

(** Any action of [print_data]. *)
Definition is_print (a : action) : bool :=
  match a with
  | Event_scaled_value _ _ _ | Printf_ts _
  | Printf_aggr _ _ | Printf_cpu _ _ _ => true
  | _ => false
  end.

(** An action of the parent once the counters are open. *)
Definition is_measurement (a : action) : bool :=
  match a with
  | Signal_sigint | Sigaction_sigalrm | Setitimer _ _ | Write_pipe
  | Waitpid _ _ | Pause _ | Read_all_events _
  | Event_scaled_value _ _ _ | Printf_ts _
  | Printf_aggr _ _ | Printf_cpu _ _ _ => true
  | _ => false
  end.

(** An action of the child. *)
Definition is_child (a : action) : bool :=
  match a with
  | Child_read_pipe | Child_pause | Child_execvp _
  | Child_write_stderr _ => true
  | _ => false
  end.

(** An action that can only follow [fork]. *)
Definition is_late (a : action) : bool :=
  match a with
  | Perror _ => true
  | _ => is_child a || is_setup a || is_dump a || is_measurement a
  end.

(** An action after which the option loop has left the program. *)
Definition is_early_exit (a : action) : bool :=
  match a with
  | Usage_message => true
  | Parse_events _ _ r => r <? 0
  | _ => false
  end.

Definition value_lines (t : list action) : list action :=
  filter is_value_line t.

(** The action is a time stamp, or scales or prints a handle of [el]
    that has a real descriptor. *)
Definition from_valid_handle (esv : event -> nat -> Z) (el : eventlist)
    (a : action) : Prop :=
  match a with
  | Printf_ts _ => True
  | Event_scaled_value e i v =>
      In e (el_eventlist el) /\ 0 <= fd (efd e i) /\ v = esv e i
  | Printf_cpu i n v =>
      exists e, In e (el_eventlist el) /\ 0 <= fd (efd e i)
                /\ n = display_name e /\ v = esv e i
  | _ => False
  end.

(** The [-e] arguments of a command line, in order. *)
Fixpoint e_args (opts : list opt) : list string :=
  match opts with
  | [] => []
  | Opt_e s :: rest => s :: e_args rest
  | _ :: rest => e_args rest
  end.

Definition is_opt_a (o : opt) : bool :=
  match o with Opt_a => true | _ => false end.

Definition is_opt_v (o : opt) : bool :=
  match o with Opt_v => true | _ => false end.

(** An option that sends the switch to [usage()]. *)
Definition is_opt_rejected (o : opt) : bool :=
  match o with Opt_p _ | Opt_unknown => true | _ => false end.

(** No action of the trace is an early exit of the option loop. *)
Definition early_free (t : list action) : bool :=
  forallb (fun a => negb (is_early_exit a)) t.

(** What every run starts with: [setlocale] and [alloc_eventlist]. *)
Definition startup (t : list action) : list action :=
  Setlocale :: Alloc_eventlist :: t.

(** The command line without its [-v] options. *)
Definition without_v (opts : list opt) : list opt :=
  filter (fun o => negb (is_opt_v o)) opts.

(** The trace without the diagnostic dump. *)
Definition without_dump (t : list action) : list action :=
  filter (fun a => negb (is_dump a)) t.

Definition set_verbose (v : Z) (l : locals) : locals :=
  mk_locals (events l) (el l) (measure_all l) (interval l) (cpumask l)
    (no_aggr l) v.

(** Applies [f] to the value of a computation that has one. *)
Definition map_result {A B : Type} (f : A -> B) (m : M A) : M B :=
  (fst m, match snd m with
          | inl a => inl (f a)
          | inr o => inr o
          end).

(** The strings [main] hands to [parse_events] when nothing stops it:
    the [-e] arguments, or the default when there is none. *)
Definition specs_to_parse (opts : list opt) : list string :=
  match e_args opts with
  | [] => [default_events]
  | es => es
  end.

(** Every read of the trace comes after a successful
    [setup_events_cpumask]; [opened] tells whether one was seen. *)
Fixpoint reads_after_setup (opened : bool) (t : list action) : bool :=
  match t with
  | [] => true
  | Read_all_events _ :: t' => opened && reads_after_setup opened t'
  | Setup_events_cpumask _ _ _ _ r :: t' =>
      reads_after_setup (opened || (0 <=? r)) t'
  | _ :: t' => reads_after_setup opened t'
  end.

(** The handles a trace scales: target, descriptor and returned value. *)
Fixpoint scaled_handles (t : list action) : list (nat * Z * Z) :=
  match t with
  | [] => []
  | Event_scaled_value e i v :: t' => (i, fd (efd e i), v) :: scaled_handles t'
  | _ :: t' => scaled_handles t'
  end.

(** ** Further notions for the reports, the options and the waiting loop *)

Definition is_ts (a : action) : bool :=
  match a with Printf_ts _ => true | _ => false end.

Definition is_aggr_line (a : action) : bool :=
  match a with Printf_aggr _ _ => true | _ => false end.

Definition is_cpu_line (a : action) : bool :=
  match a with Printf_cpu _ _ _ => true | _ => false end.

(** What [print_data] writes to standard output: time stamps and value
    lines, without the calls of [event_scaled_value]. *)
Definition stdout_lines (t : list action) : list action :=
  filter (fun a => is_ts a || is_value_line a) t.

(** The number of diagnostic dumps in a trace. *)
Definition dumps (t : list action) : nat :=
  List.length (filter is_dump t).

(** The number of handles of a list: one per event and target. *)
Definition handles (e : eventlist) : nat :=
  (List.length (el_eventlist e) * List.length (cpu_indices e))%nat.

(** The number of calls of [read_all_events] in a trace. *)
Definition reads (t : list action) : nat :=
  List.length (filter is_read t).

Definition is_opt_A (o : opt) : bool :=
  match o with Opt_A => true | _ => false end.

Definition is_opt_I (o : opt) : bool :=
  match o with Opt_I _ => true | _ => false end.

(** The argument of the last [-C] of a command line. *)
Definition cpumask_of (opts : list opt) : option string :=
  fold_left (fun m o => match o with Opt_C s => Some s | _ => m end)
            opts None.

(** The list [parse_events] leaves after the strings [ss], parsed one
    after the other from [e]. *)
Definition parsed_list {L : Library} (e : eventlist) (ss : list string)
    : eventlist :=
  fold_left (fun e' s => snd (parse_events e' s)) ss e.

(** A return of [waitpid] or [pause] on which [cont_measure] reports and
    goes on: the wait was interrupted and the installed handler of
    [SIGALRM] ran. *)
Definition is_tick {L : Library} (armed : bool) (w : wake) : bool :=
  (w_ret w <? 0) && (armed && w_sigalrm w).

(** The wake-ups up to the first that is no tick. *)
Fixpoint leading_ticks {L : Library} (armed : bool) (ws : list wake)
    : list wake :=
  match ws with
  | [] => []
  | w :: rest =>
      if is_tick armed w then w :: leading_ticks armed rest else []
  end.

(** ** A concrete machine

    Two CPUs, the session library of module [Session] with a small event
    database, and a kernel with two counters.  Used to run the program on
    concrete command lines. *)

Module Demo.

Definition unopened : efd_t := mk_efd (-1) 0 0 0.

Definition new_event (name : string) : event :=
  mk_event name None (fun _ => unopened).

(** The database knows ["cycles"] and the default specification. *)
Definition resolve (s : string) : option (list event) :=
  if String.eqb s "cycles" then Some [new_event "cycles"]
  else if String.eqb s default_events then
    Some [new_event "instructions"; new_event "cpu-cycles";
          new_event "cache-misses"; new_event "cache-references"]
  else None.

(** The mask ["0"] holds CPU 0 only; any other mask holds every CPU. *)
Definition cpu_in_mask (m : string) (i : nat) : bool :=
  if String.eqb m "0" then Nat.eqb i 0 else true.

(** The hardware has no counter for ["cache-misses"]; any other event
    on CPU [i] opens descriptor [3 + i]. *)
Definition perf_event_open (e : event) (i : nat) (pid : Z) : option Z :=
  if String.eqb (ev_event e) "cache-misses" then None
  else Some (3 + Z.of_nat i).

Definition attr_line (e : event) (i : nat) : string := ev_event e.

Definition to_int (s : string) : Z :=
  if String.eqb s "1000" then 1000 else 0.

Definition library : Library := {|
  kernel := Session.kernel;
  alloc_eventlist := mk_eventlist [] 2;
  parse_events := Session.parse_events resolve;
  setup_events_cpumask :=
    Session.setup_events_cpumask cpu_in_mask perf_event_open;
  read_all_events := Session.read_all_events;
  event_scaled_value := Session.event_scaled_value 0;
  print_event_list_attr := Session.print_event_list_attr attr_line;
  atoi := to_int
|}.

(** Descriptor 3 counted 7 and always ran; descriptor 4 counted 100 and
    ran half of the time. *)
Definition counters : Session.kernel :=
  fun d => if d =? 3 then Some (7, 10, 10)
           else if d =? 4 then Some (100, 20, 10)
           else None.

(** [fork] returns 100 in the parent; the wait is interrupted once,
    without a timer tick. *)
Definition env : @environment library :=
  @mk_environment library 100 true
    [@mk_wake library (-1) false counters 0 0] counters 5 true.

(** The list [-e cycles] leaves, and the list after a successful
    [setup_events_cpumask] on all CPUs without a mask. *)
Definition el_cycles : eventlist :=
  snd (Session.parse_events resolve (mk_eventlist [] 2) "cycles").

Definition el_cycles_open : eventlist :=
  snd (Session.setup_events_cpumask cpu_in_mask perf_event_open
         el_cycles true 100 None).

Definition el_default : eventlist :=
  snd (Session.parse_events resolve (mk_eventlist [] 2) default_events).

(** One event on two CPUs, both valid, each with a scaled value of
    2^63. *)
Definition el_large : eventlist :=
  mk_eventlist
    [mk_event "cycles" None
       (fun i => mk_efd (3 + Z.of_nat i) (2 ^ 63) 1 1)]
    2.

(** One event on two CPUs; CPU 1 is excluded by the mask and its handle
    holds the sentinel. *)
Definition el_masked : eventlist :=
  mk_eventlist
    [mk_event "cycles" None
       (fun i => if Nat.eqb i 0 then mk_efd 3 7 10 10 else unopened)]
    2.


(** [fork] fails. *)
Definition env_no_fork : @environment library :=
  @mk_environment library (-1) true [] counters 0 true.

(** Two ticks of the timer, then the child ends; the clock reads 1000
    at the first tick and 4000 at the final report. *)
Definition env_interval : @environment library :=
  @mk_environment library 100 true
    [@mk_wake library (-1) true counters 1000 1000;
     @mk_wake library (-1) true counters 2000 2500;
     @mk_wake library 100 false counters 0 0]
    counters 4000 true.

(** The locals after [-a -I 1000 -e cycles] and after [-a -e cycles]. *)
Definition locals_interval : locals :=
  mk_locals None el_cycles true 1000 None false 0.

Definition locals_plain : locals :=
  mk_locals None el_cycles true 0 None false 0.

End Demo.

(** ** Facts about printing *)

Section PrintingFacts.

Variable event_scaled_value : event -> nat -> Z.

Let esv := event_scaled_value.

Lemma u64_add_range (a b : Z) : 0 <= u64_add a b < u64_modulus.
Proof. unfold u64_add. apply Z.mod_pos_bound. reflexivity. Qed.

Lemma aggr_cpus_trace (e : event) (cpus : list nat) (v : Z) :
  snd (aggr_cpus esv e cpus v)
  = map (fun i => Event_scaled_value e i (esv e i)) cpus.
Proof.
  revert v. induction cpus as [|i rest IH]; intros v; simpl.
  - reflexivity.
  - specialize (IH (u64_add v (esv e i))).
    destruct (aggr_cpus esv e rest (u64_add v (esv e i))) as [v' t].
    simpl in *. now rewrite IH.
Qed.

Lemma aggr_cpus_value (e : event) (cpus : list nat) (v : Z) :
  0 <= v < u64_modulus ->
  fst (aggr_cpus esv e cpus v)
  = (v + fold_right Z.add 0 (map (esv e) cpus)) mod u64_modulus.
Proof.
  revert v. induction cpus as [|i rest IH]; intros v Hv; simpl.
  - rewrite Z.add_0_r. symmetry. now apply Z.mod_small.
  - specialize (IH (u64_add v (esv e i)) (u64_add_range _ _)).
    destruct (aggr_cpus esv e rest (u64_add v (esv e i))) as [v' t].
    simpl in *. rewrite IH. unfold u64_add.
    rewrite Zplus_mod_idemp_l. f_equal. lia.
Qed.

(** What [print_data_aggr] prints for one event: one call of
    [event_scaled_value] per target, then the wrapped sum. *)
Lemma print_event_aggr_eq (el : eventlist) (ts : Z) (print_ts : bool)
    (e : event) :
  print_event_aggr esv el ts print_ts e
  = map (fun i => Event_scaled_value e i (esv e i)) (cpu_indices el)
    ++ print_ts_prefix ts print_ts
    ++ [Printf_aggr (display_name e) (all_sum esv el e mod u64_modulus)].
Proof.
  unfold print_event_aggr, all_sum.
  pose proof (aggr_cpus_trace e (cpu_indices el) 0) as Ht.
  pose proof (aggr_cpus_value e (cpu_indices el) 0) as Hv.
  destruct (aggr_cpus esv e (cpu_indices el) 0) as [v t]. simpl in *.
  subst t. rewrite Hv by (unfold u64_modulus; lia). reflexivity.
Qed.

Lemma value_lines_app (t1 t2 : list action) :
  value_lines (t1 ++ t2) = value_lines t1 ++ value_lines t2.
Proof. apply filter_app. Qed.

Lemma value_lines_scaled (e : event) (cpus : list nat) :
  value_lines (map (fun i => Event_scaled_value e i (esv e i)) cpus) = [].
Proof. induction cpus; simpl; auto. Qed.

Lemma value_lines_print_data_aggr (el : eventlist) (ts : Z)
    (print_ts : bool) :
  value_lines (print_data_aggr esv el ts print_ts)
  = map (fun e => Printf_aggr (display_name e)
                    (all_sum esv el e mod u64_modulus))
        (el_eventlist el).
Proof.
  unfold print_data_aggr.
  induction (el_eventlist el) as [|e rest IH]; simpl.
  - reflexivity.
  - rewrite value_lines_app, IH, print_event_aggr_eq.
    rewrite !value_lines_app, value_lines_scaled.
    destruct print_ts; reflexivity.
Qed.

(** Targets whose scaled value is zero do not change the sum. *)
Lemma sum_filter_zero (f : nat -> Z) (p : nat -> bool) (l : list nat) :
  (forall i, In i l -> p i = false -> f i = 0) ->
  fold_right Z.add 0 (map f l) = fold_right Z.add 0 (map f (filter p l)).
Proof.
  induction l as [|i rest IH]; intros H; simpl.
  - reflexivity.
  - rewrite IH by (intros; apply H; simpl; auto).
    destruct (p i) eqn:Hp; simpl.
    + reflexivity.
    + rewrite (H i) by (simpl; auto). reflexivity.
Qed.

Lemma valid_target_false (e : event) (i : nat) :
  valid_target e i = false <-> fd (efd e i) < 0.
Proof. unfold valid_target. rewrite Z.leb_gt. tauto. Qed.

(** Every action of [print_data_no_aggr] is a time stamp or comes from
    a handle with a real descriptor. *)
Lemma no_aggr_cpus_valid (el : eventlist) (ts : Z) (print_ts : bool)
    (e : event) (cpus : list nat) (a : action) :
  In e (el_eventlist el) ->
  In a (no_aggr_cpus esv ts print_ts e cpus) ->
  from_valid_handle esv el a.
Proof.
  intros He. induction cpus as [|j rest IH]; simpl; [tauto|].
  destruct (fd (efd e j) <? 0) eqn:Hj; [exact IH|].
  apply Z.ltb_ge in Hj.
  intros [<- | Hin]; [simpl; auto|].
  apply in_app_or in Hin. destruct Hin as [Hin | [<- | Hin]].
  - destruct print_ts; simpl in Hin; [|tauto].
    destruct Hin as [<- | []]. exact I.
  - simpl. exists e. auto.
  - now apply IH.
Qed.

Lemma print_data_no_aggr_valid (el : eventlist) (ts : Z) (print_ts : bool)
    (a : action) :
  In a (print_data_no_aggr esv el ts print_ts) ->
  from_valid_handle esv el a.
Proof.
  unfold print_data_no_aggr. rewrite in_flat_map.
  intros (e & He & Ha). eapply no_aggr_cpus_valid; eauto.
Qed.

End PrintingFacts.

(** ** Facts about the session library model *)

Section SessionFacts.

Import Session.

Lemma Qtrunc_scaled (r en run : Z) :
  0 < run ->
  Qtrunc (inject_Z r * (inject_Z en / inject_Z run)) = Z.quot (r * en) run.
Proof.
  intros Hrun. destruct run as [|p|p]; try lia.
  unfold Qtrunc, Qdiv, Qinv, Qmult, inject_Z. simpl.
  f_equal. lia.
Qed.

Lemma scaled_value_running (h : efd_t) :
  0 < running_time h ->
  scaled_value h
  = Some (Z.quot (raw_count h * enabled_time h) (running_time h)).
Proof.
  intros Hrun. unfold scaled_value.
  destruct (0 <? running_time h) eqn:E; [|apply Z.ltb_ge in E; lia].
  now rewrite Qtrunc_scaled.
Qed.

Lemma read_event_fd (k : kernel) (h : efd_t) : fd (read_event k h) = fd h.
Proof.
  unfold read_event. destruct (fd h <? 0); [reflexivity|].
  destruct (k (fd h)) as [[[r en] run]|]; reflexivity.
Qed.

(** A read forgets the snapshot it replaces. *)
Lemma read_event_overwrites (k0 k : kernel) (h : efd_t) :
  read_event k (read_event k0 h) = read_event k h.
Proof.
  unfold read_event at 1. rewrite read_event_fd.
  unfold read_event.
  destruct (fd h <? 0) eqn:E; [reflexivity|].
  destruct (k (fd h)) as [[[r en] run]|]; reflexivity.
Qed.

(** A successful parse appends the events of the string, in order. *)
Lemma parse_events_appends (resolve : string -> option (list event))
    (el : eventlist) (s : string) (evs : list event) :
  resolve s = Some evs ->
  parse_events resolve el s
  = (0, mk_eventlist (el_eventlist el ++ evs) (num_cpus el)).
Proof. unfold parse_events. now intros ->. Qed.

Lemma print_event_list_attr_length (attr_line : event -> nat -> string)
    (el : eventlist) :
  List.length (print_event_list_attr attr_line el)
  = (List.length (el_eventlist el) * List.length (cpu_indices el))%nat.
Proof.
  unfold print_event_list_attr.
  induction (el_eventlist el) as [|e rest IH]; simpl; [reflexivity|].
  now rewrite length_app, length_map, IH.
Qed.

End SessionFacts.

(** ** Facts about the program *)

Section ProgramFacts.

Context {L : Library}.

Lemma bind_inl {A B : Type} (m : M A) (f : A -> M B) (t : list action)
    (a : A) :
  m = (t, inl a) -> bind m f = (t ++ fst (f a), snd (f a)).
Proof. intros ->. simpl. now destruct (f a). Qed.

Lemma bind_inr {A B : Type} (m : M A) (f : A -> M B) (t : list action)
    (o : outcome) :
  m = (t, inr o) -> bind m f = (t, inr o).
Proof. now intros ->. Qed.

Lemma bind_emit {B : Type} (a : action) (k : M B) :
  bind (emit a) (fun _ => k) = (a :: fst k, snd k).
Proof. unfold emit. simpl. now destruct k. Qed.

Lemma bind_emits {B : Type} (t : list action) (k : M B) :
  bind (emits t) (fun _ => k) = (t ++ fst k, snd k).
Proof. unfold emits. simpl. now destruct k. Qed.

Lemma bind_ret {A B : Type} (a : A) (f : A -> M B) :
  bind (ret a) f = f a.
Proof. unfold ret. simpl. now destruct (f a). Qed.

(** *** The option loop *)

(** The three ways one option can go. *)
Lemma handle_opt_cases (o : opt) (l : locals) :
  (exists l', handle_opt o l = ([], inl l')
              /\ e_args [o] = [] /\ is_opt_rejected o = false
              /\ el l' = el l /\ events l' = events l
              /\ measure_all l' = measure_all l || is_opt_a o)
  \/ (exists s, o = Opt_e s
        /\ handle_opt o l
           = ([Parse_events (el l) s (fst (parse_events (el l) s))],
              if fst (parse_events (el l) s) <? 0 then inr (Exited 1)
              else inl (mk_locals None (snd (parse_events (el l) s))
                          (measure_all l) (interval l) (cpumask l)
                          (no_aggr l) (verbose l))))
  \/ (is_opt_rejected o = true
      /\ handle_opt o l = ([Usage_message], inr (Exited 1))).
Proof.
  destruct o;
    try (left; eexists; repeat split; simpl;
         auto using orb_false_r, orb_true_r; fail).
  - right; left. exists optarg. split; [reflexivity|].
    unfold handle_opt.
    destruct (parse_events (el l) optarg) as [r e']. simpl fst; simpl snd.
    rewrite bind_emit. now destruct (r <? 0).
  - right; right. auto.
  - right; right. auto.
Qed.

Lemma e_args_cons (o : opt) (rest : list opt) :
  e_args (o :: rest) = e_args [o] ++ e_args rest.
Proof. destruct o; reflexivity. Qed.

Lemma getopt_loop_cons (o : opt) (rest : list opt) (l : locals) :
  getopt_loop (o :: rest) l
  = bind (handle_opt o l) (fun l' => getopt_loop rest l').
Proof. reflexivity. Qed.

Ltac step_option o l IH :=
  rewrite getopt_loop_cons; try rewrite (e_args_cons o);
  destruct (handle_opt_cases o l)
    as [(l' & Hh & He & Hrej & Hel & Hev & Hma)
       | [(s & -> & Hh) | (Hrej & Hh)]];
  [ rewrite (bind_inl _ _ _ _ Hh); try rewrite He; simpl fst; simpl snd;
    simpl app
  | destruct (fst (parse_events (el l) s) <? 0) eqn:Hret;
    [ rewrite (bind_inr _ _ _ _ Hh) | rewrite (bind_inl _ _ _ _ Hh) ];
    simpl fst; simpl snd; simpl app
  | rewrite (bind_inr _ _ _ _ Hh); simpl fst; simpl snd ].

(** The option loop only parses events and prints the usage. *)
Lemma getopt_loop_actions (opts : list opt) (l : locals) :
  Forall (fun a => is_parse a = true \/ a = Usage_message)
         (fst (getopt_loop opts l)).
Proof.
  revert l. induction opts as [|o rest IH]; intros l; [constructor|].
  step_option o l IH.
  - apply IH.
  - constructor; [now left | constructor].
  - constructor; [now left | apply IH].
  - constructor; [now right | constructor].
Qed.

(** Its calls of [parse_events] start the chain of the [-e] arguments. *)
Lemma getopt_loop_prefix (opts : list opt) (l : locals) :
  exists rest,
    parse_chain (el l) (e_args opts)
    = filter is_parse (fst (getopt_loop opts l)) ++ rest.
Proof.
  revert l. induction opts as [|o rest IH]; intros l;
    [exists []; reflexivity|].
  step_option o l IH.
  - rewrite <- Hel. apply IH.
  - eexists. reflexivity.
  - destruct (IH (mk_locals None (snd (parse_events (el l) s))
                    (measure_all l) (interval l) (cpumask l)
                    (no_aggr l) (verbose l))) as [r Hr].
    exists r. simpl in *. now rewrite Hr.
  - eexists. simpl. reflexivity.
Qed.

(** When the loop runs to its end. *)
Lemma getopt_loop_done (opts : list opt) (l lend : locals) :
  snd (getopt_loop opts l) = inl lend ->
  early_free (fst (getopt_loop opts l)) = true
  /\ existsb is_opt_rejected opts = false
  /\ measure_all lend = measure_all l || existsb is_opt_a opts
  /\ events lend = match e_args opts with [] => events l | _ => None end
  /\ forall ss, parse_chain (el l) (e_args opts ++ ss)
                = fst (getopt_loop opts l) ++ parse_chain (el lend) ss.
Proof.
  revert l. induction opts as [|o rest IH]; intros l.
  - simpl. intros [= <-]. rewrite orb_false_r. auto.
  - step_option o l IH; intros Hdone; try discriminate.
    + destruct (IH _ Hdone) as (H1 & H2 & H3 & H4 & H5).
      simpl existsb. rewrite Hrej, H3, Hma, H4, Hev, orb_assoc.
      rewrite <- Hel. auto.
    + destruct (IH _ Hdone) as (H1 & H2 & H3 & H4 & H5).
      simpl in *. rewrite Hret, H3. repeat split; auto.
      * now destruct (e_args rest).
      * intros ss. now rewrite H5.
Qed.

(** When the loop leaves the program. *)
Lemma getopt_loop_exit (opts : list opt) (l : locals) (o : outcome) :
  snd (getopt_loop opts l) = inr o ->
  o = Exited 1
  /\ exists pre a,
       fst (getopt_loop opts l) = pre ++ [a]
       /\ is_early_exit a = true
       /\ early_free pre = true.
Proof.
  revert l. induction opts as [|o' rest IH]; intros l.
  - discriminate.
  - step_option o' l IH; intros Hexit.
    + apply IH, Hexit.
    + injection Hexit as <-. split; [reflexivity|].
      exists [], (Parse_events (el l) s (fst (parse_events (el l) s))).
      simpl. now rewrite Hret.
    + destruct (IH _ Hexit) as (-> & pre & a & Ht & Ha & Hpre).
      split; [reflexivity|].
      exists (Parse_events (el l) s (fst (parse_events (el l) s)) :: pre), a.
      rewrite Ht. simpl. now rewrite Hret.
    + injection Hexit as <-. split; [reflexivity|].
      exists [], Usage_message. auto.
Qed.


(** *** The phases after the option loop *)

Lemma check_command_cases (l : locals) (prog : list string) :
  (check_command l prog = ([], inl tt)
   /\ (prog <> [] \/ measure_all l = true))
  \/ (check_command l prog
      = ([Fprintf_stderr "Specify command or -a
"%string], inr (Exited 1))
      /\ prog = [] /\ measure_all l = false).
Proof.
  unfold check_command. destruct prog as [|p ps].
  - destruct (measure_all l); [left | right]; auto.
  - left. split; [reflexivity | left; discriminate].
Qed.

Lemma parse_default_cases (l : locals) :
  (events l = None /\ parse_default l = ([], inl (el l)))
  \/ (exists s, events l = Some s
        /\ parse_default l
           = ([Parse_events (el l) s (fst (parse_events (el l) s))],
              if fst (parse_events (el l) s) <? 0 then inr (Exited 1)
              else inl (snd (parse_events (el l) s)))).
Proof.
  unfold parse_default. destruct (events l) as [s|]; [right | left; auto].
  exists s. split; [reflexivity|].
  destruct (parse_events (el l) s) as [r e']. simpl fst; simpl snd.
  rewrite bind_emit. now destruct (r <? 0).
Qed.

Lemma child_actions (env : environment) (prog : list string) :
  Forall (fun a => is_child a = true) (fst (child env prog)).
Proof.
  unfold child. destruct (env_released env); [|repeat constructor].
  destruct prog as [|p ps]; [repeat constructor|].
  rewrite !bind_emit. destruct (env_execvp_ok env); repeat constructor.
Qed.

Lemma child_result (env : environment) (prog : list string) :
  exists o, snd (child env prog) = inr o.
Proof.
  unfold child. destruct (env_released env); [|eexists; reflexivity].
  destruct prog as [|p ps]; [eexists; reflexivity|].
  rewrite !bind_emit. destruct (env_execvp_ok env); eexists; reflexivity.
Qed.

Lemma print_data_actions (e : eventlist) (ts : Z) (print_ts na : bool) :
  Forall (fun a => is_print a = true)
         (print_data event_scaled_value e ts print_ts na).
Proof.
  unfold print_data. apply Forall_forall. intros a Ha.
  destruct na.
  - apply print_data_no_aggr_valid in Ha. destruct a; simpl in *; tauto.
  - unfold print_data_aggr in Ha. apply in_flat_map in Ha.
    destruct Ha as (ev & _ & Ha). rewrite print_event_aggr_eq in Ha.
    rewrite !in_app_iff, in_map_iff in Ha.
    destruct Ha as [(i & <- & _) | [Ha | [<- | []]]]; try reflexivity.
    destruct print_ts; simpl in Ha; [|tauto].
    destruct Ha as [<- | []]; reflexivity.
Qed.

Lemma is_print_measurement (a : action) :
  is_print a = true -> is_measurement a = true.
Proof. destruct a; simpl; congruence. Qed.

Lemma cont_measure_actions (w : wake) (g : globals) (e : eventlist)
    (na : bool) :
  Forall (fun a => is_measurement a = true) (fst (cont_measure w g e na)).
Proof.
  unfold cont_measure. destruct (_ && _); simpl; constructor.
  - reflexivity.
  - eapply Forall_impl; [|apply print_data_actions].
    apply is_print_measurement.
Qed.

Lemma measure_loop_cons (wait : Z -> action) (armed : bool) (w : wake)
    (rest : list wake) (g : globals) (e : eventlist) (na : bool) :
  measure_loop wait armed (w :: rest) g e na
  = (let g1 := mk_globals (gotalarm g || (armed && w_sigalrm w))
                          (starttime g) in
     emit (wait (w_ret w)) ;;;
     let '(t, (continue, g2, e2)) := cont_measure w g1 e na in
     emits t ;;;
     if continue then measure_loop wait armed rest g2 e2 na
     else ret (g2, e2)).
Proof. reflexivity. Qed.

Lemma measure_loop_actions (wait : Z -> action) (armed : bool)
    (ws : list wake) (g : globals) (e : eventlist) (na : bool) :
  (forall r, is_measurement (wait r) = true) ->
  Forall (fun a => is_measurement a = true)
         (fst (measure_loop wait armed ws g e na)).
Proof.
  intros Hwait. revert g e.
  induction ws as [|w rest IH]; intros g e; [constructor|].
  rewrite measure_loop_cons. cbv zeta.
  pose proof (cont_measure_actions w
    (mk_globals (gotalarm g || (armed && w_sigalrm w)) (starttime g))
    e na) as Hc.
  destruct (cont_measure w _ e na) as [t [[c g2] e2]]. simpl in Hc.
  rewrite bind_emit, bind_emits. simpl. constructor; [apply Hwait|].
  apply Forall_app. split; [exact Hc|].
  destruct c; [apply IH | constructor].
Qed.

Lemma run_measurement_actions (env : environment) (l : locals)
    (e : eventlist) (pid : Z) :
  Forall (fun a => is_measurement a = true)
         (fst (run_measurement env l e pid)).
Proof.
  unfold run_measurement. rewrite bind_emit. simpl.
  constructor; [reflexivity|].
  assert (exists t, arm_timer (interval l) = (t, inl tt)
                    /\ Forall (fun a => is_measurement a = true) t)
    as (tt0 & Harm & Htt0).
  { unfold arm_timer. destruct (interval l =? 0).
    - exists []. split; [reflexivity | constructor].
    - eexists. rewrite bind_emit. split; [reflexivity|].
      repeat constructor. }
  rewrite (bind_inl _ _ _ _ Harm). simpl. apply Forall_app.
  split; [exact Htt0|].
  assert (Forall (fun a => is_measurement a = true)
                 (fst (wait_loops env l e pid))) as Hw.
  { unfold wait_loops. destruct (0 <=? pid).
    - rewrite bind_emit. simpl. constructor; [reflexivity|].
      now apply measure_loop_actions.
    - now apply measure_loop_actions. }
  destruct (wait_loops env l e pid) as [tw [[g e2]|o]]; simpl in *.
  - apply Forall_app. split; [exact Hw|].
    constructor; [reflexivity|].
    rewrite app_nil_r. eapply Forall_impl; [|apply print_data_actions].
    apply is_print_measurement.
  - exact Hw.
Qed.

Lemma run_measurement_result (env : environment) (l : locals)
    (e : eventlist) (pid : Z) :
  exists o, snd (run_measurement env l e pid) = inr o.
Proof.
  unfold run_measurement. rewrite bind_emit. cbn [snd].
  destruct (arm_timer (interval l)) as [ta [[]|o]].
  - rewrite (bind_inl _ _ _ _ eq_refl). cbn [snd].
    destruct (wait_loops env l e pid) as [tw [[g e2]|o]].
    + rewrite (bind_inl _ _ _ _ eq_refl). cbn [snd final_report].
      rewrite bind_emit, bind_emits. eexists; reflexivity.
    + eexists; reflexivity.
  - rewrite (bind_inr _ _ _ _ eq_refl). eexists; reflexivity.
Qed.

(** The parent from [setup_events_cpumask] on, by the result of the
    call. *)
Lemma measure_eq (env : environment) (l : locals) (e : eventlist)
    (pid : Z) :
  let r := fst (setup_events_cpumask e (measure_all l) pid (cpumask l)) in
  let e1 := snd (setup_events_cpumask e (measure_all l) pid (cpumask l)) in
  measure env l e pid
  = if r <? 0 then
      ([Setup_events_cpumask e (measure_all l) pid (cpumask l) r],
       inr (Exited 1))
    else
      (Setup_events_cpumask e (measure_all l) pid (cpumask l) r
         :: fst (dump_attr l e1) ++ fst (run_measurement env l e1 pid),
       snd (run_measurement env l e1 pid)).
Proof.
  unfold measure.
  destruct (setup_events_cpumask e (measure_all l) pid (cpumask l))
    as [r e1]. simpl fst; simpl snd.
  rewrite bind_emit. destruct (r <? 0); [reflexivity|].
  rewrite bind_ret. unfold dump_attr.
  destruct (verbose l =? 0); [now rewrite bind_ret|].
  now rewrite bind_emit.
Qed.

Lemma after_fork_cases (env : environment) (l : locals) (e : eventlist)
    (prog : list string) :
  (env_fork env < 0
   /\ after_fork env l e prog = ([Perror "fork"%string], inr (Exited 1)))
  \/ (env_fork env = 0 /\ after_fork env l e prog = child env prog)
  \/ (0 < env_fork env
      /\ after_fork env l e prog = measure env l e (env_fork env)).
Proof.
  unfold after_fork.
  destruct (env_fork env <? 0) eqn:E1; [left; split; [lia | reflexivity]|].
  destruct (env_fork env =? 0) eqn:E2; [right; left | right; right];
    split; auto; lia.
Qed.

(** *** The whole program *)

Lemma main_eq (env : environment) (opts : list opt) (prog : list string) :
  main env opts prog
  = match snd (getopt_loop opts init_locals) with
    | inr o => (startup (fst (getopt_loop opts init_locals)), inr o)
    | inl l =>
        match snd (check_command l prog) with
        | inr o =>
            (startup (fst (getopt_loop opts init_locals)
                      ++ fst (check_command l prog)), inr o)
        | inl _ =>
            match snd (parse_default l) with
            | inr o =>
                (startup (fst (getopt_loop opts init_locals)
                          ++ fst (parse_default l)), inr o)
            | inl e =>
                (startup (fst (getopt_loop opts init_locals)
                          ++ fst (parse_default l)
                          ++ Pipe :: Signal_sigchld_ignore
                          :: Fork (env_fork env)
                          :: fst (after_fork env l e prog)),
                 snd (after_fork env l e prog))
            end
        end
    end.
Proof.
  unfold main, startup. rewrite !bind_emit.
  destruct (getopt_loop opts init_locals) as [tg [l|o]];
    [|reflexivity].
  rewrite (bind_inl _ _ _ _ eq_refl). cbn [fst snd].
  destruct (check_command_cases l prog) as [[Hc _] | [Hc _]];
    rewrite Hc; [|reflexivity].
  rewrite (bind_inl _ _ _ _ eq_refl). cbn [fst snd app].
  destruct (parse_default l) as [td [e|o]].
  - rewrite (bind_inl _ _ _ _ eq_refl), !bind_emit. reflexivity.
  - reflexivity.
Qed.

Lemma parse_chain_actions (e : eventlist) (ss : list string) :
  Forall (fun a => is_parse a = true) (parse_chain e ss).
Proof.
  revert e. induction ss as [|s rest IH]; intros e; simpl; constructor;
    auto.
Qed.

Lemma filter_all (p : action -> bool) (t : list action) :
  Forall (fun a => p a = true) t -> filter p t = t.
Proof.
  induction 1 as [|a t Ha _ IH]; simpl; [reflexivity|].
  now rewrite Ha, IH.
Qed.

Lemma filter_none (p : action -> bool) (t : list action) :
  Forall (fun a => p a = false) t -> filter p t = [].
Proof.
  induction 1 as [|a t Ha _ IH]; simpl; [reflexivity|].
  now rewrite Ha, IH.
Qed.

Lemma after_fork_actions (env : environment) (l : locals) (e : eventlist)
    (prog : list string) :
  Forall (fun a => is_late a = true) (fst (after_fork env l e prog)).
Proof.
  destruct (after_fork_cases env l e prog)
    as [[_ ->] | [[_ ->] | [_ ->]]].
  - repeat constructor.
  - eapply Forall_impl; [|apply child_actions].
    intros a Ha. destruct a; try discriminate; reflexivity.
  - rewrite measure_eq. cbv zeta.
    destruct (fst (setup_events_cpumask _ _ _ _) <? 0);
      [repeat constructor|].
    cbn [fst]. constructor; [reflexivity|]. apply Forall_app. split.
    + unfold dump_attr. destruct (verbose l =? 0); repeat constructor.
    + eapply Forall_impl; [|apply run_measurement_actions].
      intros a Ha. destruct a; try discriminate; reflexivity.
Qed.

Lemma after_fork_result (env : environment) (l : locals) (e : eventlist)
    (prog : list string) :
  exists o, snd (after_fork env l e prog) = inr o.
Proof.
  destruct (after_fork_cases env l e prog)
    as [[_ ->] | [[_ ->] | [_ ->]]].
  - eexists; reflexivity.
  - apply child_result.
  - rewrite measure_eq. cbv zeta.
    destruct (fst (setup_events_cpumask _ _ _ _) <? 0);
      [eexists; reflexivity|].
    apply run_measurement_result.
Qed.

(** The four ways a run can go: the option loop leaves; no command and
    no [-a]; the default specification fails to parse; the program
    forks. *)
Lemma main_cases (env : environment) (opts : list opt)
    (prog : list string) :
  let t := trace (main env opts prog) in
  let o := result (main env opts prog) in
  (exists pre a,
      t = startup (pre ++ [a]) /\ o = Exited 1
      /\ is_early_exit a = true /\ early_free pre = true
      /\ Forall (fun a => is_parse a = true \/ a = Usage_message)
                (pre ++ [a])
      /\ exists rest, parse_chain alloc_eventlist (specs_to_parse opts)
                      = filter is_parse (pre ++ [a]) ++ rest)
  \/ (t = startup (parse_chain alloc_eventlist (e_args opts)
                   ++ [Fprintf_stderr "Specify command or -a
"%string])
      /\ o = Exited 1
      /\ early_free (parse_chain alloc_eventlist (e_args opts)) = true
      /\ prog = [] /\ existsb is_opt_a opts = false)
  \/ (exists l e,
        t = startup (parse_chain alloc_eventlist (specs_to_parse opts)
                     ++ Pipe :: Signal_sigchld_ignore
                     :: Fork (env_fork env)
                     :: fst (after_fork env l e prog))
        /\ o = result (after_fork env l e prog)
        /\ early_free (parse_chain alloc_eventlist (specs_to_parse opts))
           = true
        /\ (prog <> [] \/ existsb is_opt_a opts = true)).
Proof.
  cbv zeta. unfold trace, result. rewrite main_eq.
  pose proof (getopt_loop_actions opts init_locals) as Hact.
  pose proof (getopt_loop_prefix opts init_locals) as Hpre.
  destruct (snd (getopt_loop opts init_locals)) as [l|o] eqn:Hg.
  - destruct (getopt_loop_done _ _ _ Hg) as (Hfree & Hrej & Hma & Hev & Hch).
    cbn [el init_locals measure_all events orb] in *.
    pose proof (Hch []) as Hch0. rewrite app_nil_r in Hch0.
    simpl parse_chain in Hch0 at 2. rewrite app_nil_r in Hch0.
    destruct (check_command_cases l prog) as [[Hc Hp] | (Hc & -> & Hml)];
      rewrite Hc; cbn [fst snd].
    + assert (prog <> [] \/ existsb is_opt_a opts = true) as Hp'.
      { destruct Hp as [Hp | Hp]; [now left | right; congruence]. }
      destruct (parse_default_cases l) as [[Hn Hd] | (s & Hs & Hd)];
        rewrite Hd; cbn [fst snd].
      * right; right. exists l, (el l).
        assert (specs_to_parse opts = e_args opts) as ->.
        { unfold specs_to_parse. destruct (e_args opts); congruence. }
        rewrite Hch0. simpl app. repeat split; auto.
      * assert (e_args opts = [] /\ s = default_events) as [He ->].
        { destruct (e_args opts); [split; congruence | congruence]. }
        assert (specs_to_parse opts = [default_events]) as Hsp.
        { unfold specs_to_parse. now rewrite He. }
        rewrite He in Hch, Hch0. simpl in Hch0.
        pose proof (Hch [default_events]) as Hd1. rewrite <- Hch0 in Hd1.
        simpl in Hd1. injection Hd1 as Hel.
        rewrite <- Hch0. simpl app.
        destruct (fst (parse_events (el l) default_events) <? 0) eqn:Hr.
        -- left. exists [], (Parse_events (el l) default_events
                              (fst (parse_events (el l) default_events))).
           simpl. rewrite Hr, Hsp. simpl. rewrite <- Hel.
           repeat split; auto; try (repeat constructor; fail).
           exists []. reflexivity.
        -- right; right. exists l, (snd (parse_events (el l) default_events)).
           rewrite Hsp. simpl. rewrite Hel, Hr. auto.
    + right; left. rewrite <- Hch0 in Hfree |- *. repeat split; auto.
      congruence.
  - destruct (getopt_loop_exit _ _ _ Hg) as (-> & pre & a & Ht & Ha & Hfree).
    left. exists pre, a. rewrite Ht in *. repeat split; auto.
    destruct Hpre as [rest Hrest]. cbn [el init_locals] in Hrest.
    unfold specs_to_parse. destruct (e_args opts) as [|s ss] eqn:He.
    + simpl in Hrest. destruct (filter is_parse (pre ++ [a]));
        [eexists; reflexivity | discriminate].
    + eauto.
Qed.

(** Every run ends through [stop]: [result] never falls back on its
    default. *)
Lemma main_ends (env : environment) (opts : list opt) (prog : list string) :
  exists o, snd (main env opts prog) = inr o.
Proof.
  rewrite main_eq.
  destruct (snd (getopt_loop opts init_locals)) as [l|o];
    [|eexists; reflexivity].
  destruct (snd (check_command l prog)); [|eexists; reflexivity].
  destruct (snd (parse_default l)) as [e|o]; [|eexists; reflexivity].
  apply after_fork_result.
Qed.

(** *** Consequences for the order of the calls *)

Lemma early_free_in (t : list action) (a : action) :
  early_free t = true -> In a t -> is_early_exit a = false.
Proof.
  unfold early_free. rewrite forallb_forall. intros H Ha.
  apply H in Ha. now apply negb_true_iff in Ha.
Qed.

Lemma in_startup (a : action) (t : list action) :
  In a (startup t) -> a = Setlocale \/ a = Alloc_eventlist \/ In a t.
Proof. simpl. intuition. Qed.

Lemma late_not_early (a : action) :
  is_late a = true ->
  is_parse a = false /\ is_early_exit a = false /\ is_fork a = false.
Proof. destruct a; simpl; auto; discriminate. Qed.

Lemma option_action_kind (a : action) :
  is_parse a = true \/ a = Usage_message ->
  is_setup a = false /\ is_fork a = false /\ is_read a = false
  /\ is_print a = false /\ is_dump a = false.
Proof. intros [H | ->]; [destruct a; try discriminate|]; simpl; auto. Qed.

Lemma reads_after_setup_opened (t : list action) :
  reads_after_setup true t = true.
Proof. induction t as [|a t IH]; simpl; [|destruct a]; auto. Qed.

Lemma reads_after_setup_none (b : bool) (t : list action) :
  Forall (fun a => is_read a = false) t -> reads_after_setup b t = true.
Proof.
  intros H. revert b. induction H as [|a t Ha _ IH]; intros b; simpl; auto.
  destruct a; auto; discriminate.
Qed.

Lemma reads_after_setup_app (b : bool) (t1 t2 : list action) :
  Forall (fun a => is_read a = false /\ is_setup a = false) t1 ->
  reads_after_setup b (t1 ++ t2) = reads_after_setup b t2.
Proof.
  induction 1 as [|a t [Hr Hs] _ IH]; simpl; auto.
  destruct a; auto; discriminate.
Qed.

(** The checker is sound for the statement on positions. *)
Lemma reads_after_setup_sound (b : bool) (t : list action) :
  reads_after_setup b t = true ->
  forall pre e post,
    t = pre ++ Read_all_events e :: post ->
    b = true \/ exists a, In a pre /\ is_setup_ok a = true.
Proof.
  revert b. induction t as [|x t IH]; intros b Hras pre e post Ht.
  - destruct pre; discriminate.
  - destruct pre as [|y pre]; simpl in Ht; injection Ht as -> ->.
    + simpl in Hras. apply andb_true_iff in Hras. now left.
    + assert (forall b', reads_after_setup b' (pre ++ Read_all_events e :: post)
                         = true ->
                         b' = true \/
                         exists a, In a (y :: pre) /\ is_setup_ok a = true)
        as Hnext.
      { intros b' Hb'. destruct (IH b' Hb' pre e post eq_refl)
          as [-> | (a & Ha & Hok)]; [now left | right].
        exists a. simpl. auto. }
      destruct y; simpl in Hras; try (now apply Hnext).
      * destruct (Hnext _ Hras) as [Hb | Hex]; [|now right].
        apply orb_true_iff in Hb. destruct Hb as [-> | Hok]; [now left|].
        right. eexists. split; [left; reflexivity | exact Hok].
      * apply andb_true_iff in Hras. now left.
Qed.

Lemma main_reads_after_setup (env : environment) (opts : list opt)
    (prog : list string) :
  reads_after_setup false (trace (main env opts prog)) = true.
Proof.
  destruct (main_cases env opts prog)
    as [(pre & a & -> & _ & _ & _ & Hact & _)
       | [(-> & _) | (l & e & -> & _)]].
  - apply reads_after_setup_none. repeat constructor.
    eapply Forall_impl; [|exact Hact].
    intros x Hx. now apply option_action_kind in Hx.
  - apply reads_after_setup_none. repeat constructor.
    apply Forall_app. split; [|repeat constructor].
    eapply Forall_impl; [|apply parse_chain_actions].
    intros x Hx. now destruct x.
  - unfold startup. cbn [reads_after_setup].
    rewrite reads_after_setup_app.
    2:{ eapply Forall_impl; [|apply parse_chain_actions].
        intros x Hx. now destruct x. }
    cbn [reads_after_setup].
    destruct (after_fork_cases env l e prog)
      as [[_ ->] | [[_ ->] | [_ ->]]].
    + reflexivity.
    + apply reads_after_setup_none.
      eapply Forall_impl; [|apply child_actions].
      intros x Hx. now destruct x.
    + rewrite measure_eq. cbv zeta.
      destruct (fst (setup_events_cpumask _ _ _ _) <? 0) eqn:Hr;
        cbn [fst reads_after_setup orb]; [reflexivity|].
      apply Z.ltb_ge, Z.leb_le in Hr. rewrite Hr.
      apply reads_after_setup_opened.
Qed.

(** *** Failing fast *)

(** C4: when a call of [parse_events] returns a negative value, be it
    for a [-e] argument or for the default specification, that call is
    the last action of the run, the exit status is 1, and the run
    neither forks nor calls [setup_events_cpumask]: no counter handle is
    opened. *)
Theorem parse_failure_exits (env : environment) (opts : list opt)
    (prog : list string) (e : eventlist) (s : string) (r : Z) :
  In (Parse_events e s r) (trace (main env opts prog)) ->
  r < 0 ->
  result (main env opts prog) = Exited 1
  /\ (exists pre, trace (main env opts prog) = pre ++ [Parse_events e s r])
  /\ forall a, In a (trace (main env opts prog)) ->
               is_setup a = false /\ is_fork a = false.
Proof.
  intros Hin Hr.
  assert (is_early_exit (Parse_events e s r) = true) as Hearly
    by (now apply Z.ltb_lt).
  destruct (main_cases env opts prog)
    as [(pre & a & Ht & Ho & Ha & Hfree & Hact & _)
       | [(Ht & _ & Hfree & _) | (l & e' & Ht & _ & Hfree & _)]];
    rewrite Ht in *; clear Ht.
  - split; [exact Ho|].
    apply in_startup in Hin. destruct Hin as [H | [H | Hin]];
      try discriminate.
    apply in_app_iff in Hin. destruct Hin as [Hin | [<- | []]].
    + apply (early_free_in _ _ Hfree) in Hin. congruence.
    + split; [exists (startup pre); reflexivity|].
      intros x Hx. apply in_startup in Hx.
      destruct Hx as [-> | [-> | Hx]]; auto.
      rewrite Forall_forall in Hact.
      apply Hact, option_action_kind in Hx. tauto.
  - exfalso. apply in_startup in Hin.
    destruct Hin as [H | [H | Hin]]; try discriminate.
    apply in_app_iff in Hin. destruct Hin as [Hin | [H | []]];
      [|discriminate].
    apply (early_free_in _ _ Hfree) in Hin. congruence.
  - exfalso. apply in_startup in Hin.
    destruct Hin as [H | [H | Hin]]; try discriminate.
    apply in_app_iff in Hin. destruct Hin as [Hin | Hin].
    + apply (early_free_in _ _ Hfree) in Hin. congruence.
    + destruct Hin as [H | [H | [H | Hin]]]; try discriminate.
      pose proof (after_fork_actions env l e' prog) as Hlate.
      rewrite Forall_forall in Hlate.
      apply Hlate, late_not_early in Hin. simpl in Hin.
      destruct Hin; discriminate.
Qed.

(** C5: when [setup_events_cpumask] returns a negative value, that call
    is the last action of the run and the exit status is 1: the run
    contains no [read_all_events] and no action of [print_data]. *)
Theorem attach_failure_aborts (env : environment) (opts : list opt)
    (prog : list string) (e : eventlist) (ma : bool) (pid : Z)
    (mask : option string) (r : Z) :
  In (Setup_events_cpumask e ma pid mask r) (trace (main env opts prog)) ->
  r < 0 ->
  result (main env opts prog) = Exited 1
  /\ (exists pre, trace (main env opts prog)
                  = pre ++ [Setup_events_cpumask e ma pid mask r])
  /\ forall a, In a (trace (main env opts prog)) ->
               is_read a = false /\ is_print a = false.
Proof.
  intros Hin Hr.
  destruct (main_cases env opts prog)
    as [(pre & a & Ht & _ & _ & _ & Hact & _)
       | [(Ht & _) | (l & e' & Ht & Ho & _)]];
    rewrite Ht in *; clear Ht.
  - exfalso. apply in_startup in Hin.
    destruct Hin as [H | [H | Hin]]; try discriminate.
    rewrite Forall_forall in Hact.
    apply Hact, option_action_kind in Hin. simpl in Hin.
    destruct Hin; discriminate.
  - exfalso. apply in_startup in Hin.
    destruct Hin as [H | [H | Hin]]; try discriminate.
    apply in_app_iff in Hin. destruct Hin as [Hin | [H | []]];
      [|discriminate].
    pose proof (parse_chain_actions alloc_eventlist (e_args opts)) as Hp.
    rewrite Forall_forall in Hp. apply Hp in Hin. discriminate.
  - rewrite Ho.
    pose proof (parse_chain_actions alloc_eventlist (specs_to_parse opts))
      as Hp.
    rewrite Forall_forall in Hp.
    apply in_startup in Hin.
    destruct Hin as [H | [H | Hin]]; try discriminate.
    apply in_app_iff in Hin. destruct Hin as [Hin | Hin];
      [apply Hp in Hin; discriminate|].
    destruct Hin as [H | [H | [H | Hin]]]; try discriminate.
    destruct (after_fork_cases env l e' prog)
      as [[_ Haf] | [[_ Haf] | [_ Haf]]]; rewrite Haf in *; clear Haf.
    + destruct Hin as [H | []]; discriminate.
    + pose proof (child_actions env prog) as Hc.
      rewrite Forall_forall in Hc. apply Hc in Hin. discriminate.
    + rewrite measure_eq in *. cbv zeta in *.
      destruct (fst (setup_events_cpumask _ _ _ _) <? 0) eqn:Hneg.
      * destruct Hin as [<- | []].
        split; [reflexivity|]. split.
        -- eexists (startup (_ ++ [_; _; _])). unfold startup. simpl.
           rewrite <- app_assoc. reflexivity.
        -- intros x Hx. apply in_startup in Hx.
           destruct Hx as [-> | [-> | Hx]]; auto.
           apply in_app_iff in Hx. destruct Hx as [Hx | Hx].
           ++ apply Hp in Hx. now destruct x.
           ++ simpl in Hx. intuition; subst; auto.
      * exfalso. apply Z.ltb_ge in Hneg. cbn [fst] in Hin.
        destruct Hin as [[= _ _ _ _ <-] | Hin]; [lia|].
        apply in_app_iff in Hin. destruct Hin as [Hin | Hin].
        -- unfold dump_attr in Hin.
           destruct (verbose l =? 0); simpl in Hin; [tauto|].
           destruct Hin as [H | []]; discriminate.
        -- pose proof (run_measurement_actions env l
             (snd (setup_events_cpumask e' (measure_all l) (env_fork env)
                     (cpumask l))) (env_fork env)) as Hm.
           rewrite Forall_forall in Hm. apply Hm in Hin. discriminate.
Qed.

(** C6: in every run, each call of [read_all_events] comes after a call
    of [setup_events_cpumask] that returned a non-negative value. *)
Theorem reads_follow_setup (env : environment) (opts : list opt)
    (prog : list string) (pre post : list action) (e : eventlist) :
  trace (main env opts prog) = pre ++ Read_all_events e :: post ->
  exists a, In a pre /\ is_setup_ok a = true.
Proof.
  intros Ht.
  destruct (reads_after_setup_sound _ _
              (main_reads_after_setup env opts prog) _ _ _ Ht)
    as [H | H]; [discriminate | exact H].
Qed.

(** *** Which specifications are parsed *)

Lemma filter_parse_startup (t : list action) :
  filter is_parse (startup t) = filter is_parse t.
Proof. reflexivity. Qed.

(** C10: without a command and without [-a] the run ends
    with exit status 1 and neither forks nor calls
    [setup_events_cpumask]; when the option loop itself did not leave
    the program (no usage message, no failed parse), the last action is
    the message "Specify command or -a" on standard error. *)
Theorem no_command_exits (env : environment) (opts : list opt) :
  existsb is_opt_a opts = false ->
  result (main env opts []) = Exited 1
  /\ (forall a, In a (trace (main env opts [])) ->
                is_fork a = false /\ is_setup a = false)
  /\ (early_free (trace (main env opts [])) = true ->
      exists pre,
        trace (main env opts [])
        = pre ++ [Fprintf_stderr "Specify command or -a
"%string]).
Proof.
  intros Hno.
  destruct (main_cases env opts [])
    as [(pre & a & Ht & Ho & Ha & _ & Hact & _)
       | [(Ht & Ho & _) | (l & e & _ & _ & _ & [H | H])]];
    try congruence; rewrite Ht, Ho; clear Ht Ho;
    (split; [reflexivity|]); split.
  - intros x Hx. apply in_startup in Hx.
    destruct Hx as [-> | [-> | Hx]]; auto.
    rewrite Forall_forall in Hact.
    apply Hact, option_action_kind in Hx. tauto.
  - intros Hfree. exfalso.
    assert (In a (startup (pre ++ [a]))) as Hin
      by (unfold startup; simpl; rewrite in_app_iff; simpl; auto).
    apply (early_free_in _ _ Hfree) in Hin. congruence.
  - intros x Hx. apply in_startup in Hx.
    destruct Hx as [-> | [-> | Hx]]; auto.
    apply in_app_iff in Hx. destruct Hx as [Hx | [<- | []]]; auto.
    pose proof (parse_chain_actions alloc_eventlist (e_args opts)) as Hp.
    rewrite Forall_forall in Hp. apply Hp in Hx. now destruct x.
  - intros _. exists (startup (parse_chain alloc_eventlist (e_args opts))).
    reflexivity.
Qed.

(** C9: the calls of [parse_events] of a run are, in order,
    the first calls of the chain that parses the [-e] arguments one
    after the other into the list of [alloc_eventlist], or the default
    specification when there is no [-e]; the default is never parsed
    after a [-e].  They are the whole chain when the option loop does
    not leave the program and, if there is no [-e], a command or [-a]
    is given. *)
Theorem parse_calls_follow_options (env : environment) (opts : list opt)
    (prog : list string) :
  (exists rest,
      parse_chain alloc_eventlist (specs_to_parse opts)
      = filter is_parse (trace (main env opts prog)) ++ rest)
  /\ (early_free (trace (main env opts prog)) = true ->
      e_args opts <> [] \/ prog <> [] \/ existsb is_opt_a opts = true ->
      filter is_parse (trace (main env opts prog))
      = parse_chain alloc_eventlist (specs_to_parse opts)).
Proof.
  destruct (main_cases env opts prog)
    as [(pre & a & Ht & _ & Ha & _ & _ & Hrest)
       | [(Ht & _ & _ & -> & Hno) | (l & e & Ht & _ & _ & _)]];
    rewrite Ht; clear Ht; rewrite filter_parse_startup.
  - split; [exact Hrest|]. intros Hfree. exfalso.
    assert (In a (startup (pre ++ [a]))) as Hin
      by (unfold startup; simpl; rewrite in_app_iff; simpl; auto).
    apply (early_free_in _ _ Hfree) in Hin. congruence.
  - rewrite filter_app. simpl. rewrite app_nil_r.
    rewrite filter_all by apply parse_chain_actions.
    unfold specs_to_parse. destruct (e_args opts) as [|s ss].
    + split; [eexists; reflexivity|].
      intros _ [H | [H | H]]; congruence.
    + split; [exists []; now rewrite app_nil_r | reflexivity].
  - rewrite filter_app. simpl.
    rewrite filter_all by apply parse_chain_actions.
    rewrite filter_none, app_nil_r.
    + split; [exists []; now rewrite app_nil_r | reflexivity].
    + eapply Forall_impl; [|apply after_fork_actions].
      intros x Hx. now apply late_not_early in Hx.
Qed.

(** *** Verbose mode *)

Lemma bind_map_result {A B : Type} (f : A -> A) (m : M A)
    (k k' : A -> M B) :
  (forall a, k' (f a) = k a) ->
  bind (map_result f m) k' = bind m k.
Proof.
  intros H. destruct m as [t [a|o]]; unfold map_result; simpl;
    [now rewrite H | reflexivity].
Qed.

Lemma map_result_bind {A : Type} (f : locals -> locals) (m : M A)
    (k : A -> M locals) :
  map_result f (bind m k) = bind m (fun a => map_result f (k a)).
Proof.
  destruct m as [t [a|o]]; unfold map_result; simpl; [|reflexivity].
  now destruct (k a) as [t' [l|o]].
Qed.

(** Apart from [-v], an option does not look at [verbose]. *)
Lemma handle_opt_set_verbose (o : opt) (l : locals) (v : Z) :
  is_opt_v o = false ->
  handle_opt o (set_verbose v l)
  = map_result (set_verbose v) (handle_opt o l).
Proof.
  intros Hv. destruct o; try discriminate; try reflexivity.
  unfold handle_opt. cbn [el set_verbose].
  destruct (parse_events (el l) optarg) as [r e'].
  rewrite !bind_emit. now destruct (r <? 0).
Qed.

Lemma getopt_loop_without_v (opts : list opt) (l : locals) (v : Z) :
  getopt_loop (without_v opts) (set_verbose v l)
  = map_result (set_verbose v) (getopt_loop opts l).
Proof.
  revert l. induction opts as [|o rest IH]; intros l; [reflexivity|].
  destruct (is_opt_v o) eqn:Hv.
  - destruct o; try discriminate.
    unfold without_v. cbn [filter is_opt_v negb].
    rewrite getopt_loop_cons. cbn [handle_opt]. rewrite bind_ret.
    fold (without_v rest). rewrite <- IH. reflexivity.
  - unfold without_v. cbn [filter]. rewrite Hv. cbn [negb].
    fold (without_v rest). rewrite !getopt_loop_cons.
    rewrite handle_opt_set_verbose by exact Hv.
    rewrite map_result_bind.
    apply bind_map_result. intros a. apply IH.
Qed.

Lemma measurement_not_dump (t : list action) :
  Forall (fun a => is_measurement a = true) t -> without_dump t = t.
Proof.
  intros H. apply filter_all. eapply Forall_impl; [|exact H].
  intros a Ha. now destruct a.
Qed.

(** Past the option loop, [verbose] decides the dump and nothing else. *)
Lemma after_fork_set_verbose (env : environment) (l : locals)
    (e : eventlist) (prog : list string) :
  fst (after_fork env (set_verbose 0 l) e prog)
  = without_dump (fst (after_fork env l e prog))
  /\ snd (after_fork env (set_verbose 0 l) e prog)
     = snd (after_fork env l e prog).
Proof.
  destruct (after_fork_cases env l e prog)
    as [[H Ha] | [[H Ha] | [H Ha]]];
    destruct (after_fork_cases env (set_verbose 0 l) e prog)
      as [[H' Ha'] | [[H' Ha'] | [H' Ha']]];
    try lia; rewrite Ha, Ha'.
  - split; reflexivity.
  - split; [|reflexivity]. symmetry. apply filter_all.
    eapply Forall_impl; [|apply child_actions].
    intros a Hc. now destruct a.
  - rewrite !measure_eq. cbv zeta. cbn [measure_all cpumask set_verbose].
    destruct (fst (setup_events_cpumask _ _ _ _) <? 0);
      [split; reflexivity|].
    cbn [fst snd]. split; [|reflexivity].
    unfold without_dump. cbn [filter is_dump negb].
    rewrite filter_app. f_equal.
    change (run_measurement env (set_verbose 0 l))
      with (run_measurement env l).
    fold (without_dump
            (fst (run_measurement env l
                    (snd (setup_events_cpumask e (measure_all l)
                            (env_fork env) (cpumask l)))
                    (env_fork env)))).
    rewrite (measurement_not_dump _ (run_measurement_actions _ _ _ _)).
    unfold dump_attr. cbn [verbose set_verbose].
    destruct (verbose l =? 0); reflexivity.
Qed.

Lemma split_at_unique (p : action -> bool) (A B pre post : list action)
    (d d' : action) :
  Forall (fun a => p a = false) A ->
  Forall (fun a => p a = false) B ->
  p d' = true ->
  A ++ d :: B = pre ++ d' :: post ->
  pre = A /\ d' = d /\ post = B.
Proof.
  intros HA HB Hd'. revert pre.
  induction HA as [|a A Ha _ IH]; intros pre Heq.
  - destruct pre as [|x pre]; simpl in Heq; injection Heq as -> Heq.
    + auto.
    + exfalso. rewrite Forall_forall in HB.
      assert (p d' = false) by (apply HB; rewrite Heq, in_app_iff;
                                simpl; auto).
      congruence.
  - destruct pre as [|x pre]; simpl in Heq; injection Heq as -> Heq.
    + congruence.
    + destruct (IH _ Heq) as (-> & -> & ->). auto.
Qed.

Lemma no_dump_no_split (t pre post : list action) (d : action) :
  Forall (fun a => is_dump a = false) t ->
  is_dump d = true ->
  t <> pre ++ d :: post.
Proof.
  intros Ht Hd ->. rewrite Forall_forall in Ht.
  assert (is_dump d = false)
    by (apply Ht; rewrite in_app_iff; simpl; auto).
  congruence.
Qed.

Lemma parse_chain_kind (e : eventlist) (ss : list string) (p : action -> bool) :
  (forall a, is_parse a = true -> p a = false) ->
  Forall (fun a => p a = false) (parse_chain e ss).
Proof.
  intros H. eapply Forall_impl; [|apply parse_chain_actions]. exact H.
Qed.

Lemma forked_trace_eq (t rest : list action) (f : Z) :
  startup (t ++ Pipe :: Signal_sigchld_ignore :: Fork f :: rest)
  = startup (t ++ [Pipe; Signal_sigchld_ignore; Fork f]) ++ rest.
Proof. unfold startup. simpl. now rewrite <- app_assoc. Qed.

(** Removing the [-v] options changes nothing but the dump: the run ends
    the same way and its trace is the trace with them minus the dump.  A
    dump is the output of [print_event_list_attr] on the list
    [setup_events_cpumask] just returned with a non-negative value; no
    action of the measurement precedes it and no second dump follows. *)
Lemma without_v_erases_dump (env : environment) (opts : list opt)
    (prog : list string) :
  result (main env (without_v opts) prog) = result (main env opts prog)
  /\ trace (main env (without_v opts) prog)
     = without_dump (trace (main env opts prog))
  /\ forall pre e lines post,
       trace (main env opts prog)
       = pre ++ Print_event_list_attr e lines :: post ->
       lines = print_event_list_attr e
       /\ (exists pre' e0 ma pid mask r,
             pre = pre' ++ [Setup_events_cpumask e0 ma pid mask r]
             /\ 0 <= r
             /\ e = snd (setup_events_cpumask e0 ma pid mask))
       /\ Forall (fun a => is_measurement a = false) pre
       /\ Forall (fun a => is_dump a = false) post.
Proof.
  split; [|split].
  - unfold result. rewrite !main_eq.
    change (getopt_loop (without_v opts) init_locals)
      with (getopt_loop (without_v opts) (set_verbose 0 init_locals)).
    rewrite getopt_loop_without_v. unfold map_result. cbn [fst snd].
    destruct (getopt_loop opts init_locals) as [tg [l|o]]; cbn [fst snd];
      [|reflexivity].
    change (check_command (set_verbose 0 l) prog)
      with (check_command l prog).
    destruct (snd (check_command l prog)); [|reflexivity].
    change (parse_default (set_verbose 0 l)) with (parse_default l).
    destruct (snd (parse_default l)); [|reflexivity].
    cbn [snd]. now rewrite (proj2 (after_fork_set_verbose env l _ prog)).
  - unfold trace. rewrite !main_eq.
    change (getopt_loop (without_v opts) init_locals)
      with (getopt_loop (without_v opts) (set_verbose 0 init_locals)).
    rewrite getopt_loop_without_v. unfold map_result. cbn [fst snd].
    pose proof (getopt_loop_actions opts init_locals) as Hact.
    assert (forall t,
              Forall (fun a => is_parse a = true \/ a = Usage_message) t ->
                      without_dump t = t) as Hopt.
    { intros t Ht. apply filter_all. eapply Forall_impl; [|exact Ht].
      intros a Ha. apply option_action_kind in Ha.
      destruct Ha as (_ & _ & _ & _ & ->). reflexivity. }
    destruct (getopt_loop opts init_locals) as [tg [l|o]]; cbn [fst snd] in *.
    2:{ unfold startup, without_dump. cbn [filter is_dump negb].
        fold (without_dump tg). now rewrite Hopt. }
    change (check_command (set_verbose 0 l) prog)
      with (check_command l prog).
    change (parse_default (set_verbose 0 l)) with (parse_default l).
    destruct (check_command_cases l prog) as [[Hc _] | [Hc _]];
      rewrite Hc; cbn [fst snd].
    2:{ unfold startup, without_dump. cbn [filter is_dump negb].
        rewrite filter_app. fold (without_dump tg). now rewrite Hopt. }
    assert (without_dump (fst (parse_default l)) = fst (parse_default l))
      as Hd.
    { destruct (parse_default_cases l) as [[_ ->] | (s & _ & ->)];
        reflexivity. }
    destruct (snd (parse_default l)); cbn [fst];
      unfold startup, without_dump; cbn [filter is_dump negb];
      rewrite !filter_app; fold (without_dump tg);
      fold (without_dump (fst (parse_default l))); rewrite Hopt, Hd; auto.
    cbn [filter is_dump negb].
    now rewrite (proj1 (after_fork_set_verbose env l _ prog)).
  - intros pre e lines post Hsplit.
    destruct (main_cases env opts prog)
      as [(p0 & a & Ht & _ & _ & _ & Hact & _)
         | [(Ht & _) | (l & e' & Ht & _)]];
      rewrite Ht in Hsplit; clear Ht.
    + exfalso. revert Hsplit. apply no_dump_no_split; [|reflexivity].
      repeat constructor. eapply Forall_impl; [|exact Hact].
      intros x Hx. now apply option_action_kind in Hx.
    + exfalso. revert Hsplit. apply no_dump_no_split; [|reflexivity].
      repeat constructor. apply Forall_app.
      split; [|repeat constructor].
      apply parse_chain_kind. intros x Hx. now destruct x.
    + rewrite forked_trace_eq in Hsplit.
      set (head := startup (parse_chain alloc_eventlist (specs_to_parse opts)
                            ++ [Pipe; Signal_sigchld_ignore;
                                Fork (env_fork env)])) in *.
      assert (Forall (fun a => is_dump a = false) head) as Hhead.
      { repeat constructor. apply Forall_app.
        split; [|repeat constructor].
        apply parse_chain_kind. intros x Hx. now destruct x. }
      assert (Forall (fun a => is_measurement a = false) head) as Hhead'.
      { repeat constructor. apply Forall_app.
        split; [|repeat constructor].
        apply parse_chain_kind. intros x Hx. now destruct x. }
      clearbody head.
      destruct (after_fork_cases env l e' prog)
        as [[_ Ha] | [[_ Ha] | [_ Ha]]]; rewrite Ha in Hsplit; clear Ha.
      * exfalso. revert Hsplit. apply no_dump_no_split; [|reflexivity].
        apply Forall_app. split; [exact Hhead | repeat constructor].
      * exfalso. revert Hsplit. apply no_dump_no_split; [|reflexivity].
        apply Forall_app. split; [exact Hhead|].
        eapply Forall_impl; [|apply child_actions].
        intros x Hx. now destruct x.
      * rewrite measure_eq in Hsplit. cbv zeta in Hsplit.
        pose proof (run_measurement_actions env l
          (snd (setup_events_cpumask e' (measure_all l) (env_fork env)
                  (cpumask l))) (env_fork env)) as Hrun.
        destruct (fst (setup_events_cpumask _ _ _ _) <? 0) eqn:Hneg;
          cbn [fst] in Hsplit.
        -- exfalso. revert Hsplit. apply no_dump_no_split; [|reflexivity].
           apply Forall_app. split; [exact Hhead | repeat constructor].
        -- unfold dump_attr in Hsplit.
           destruct (verbose l =? 0); cbn [fst app ret emit] in Hsplit.
           ++ exfalso. revert Hsplit.
              apply no_dump_no_split; [|reflexivity].
              apply Forall_app. split; [exact Hhead|].
              constructor; [reflexivity|].
              eapply Forall_impl; [|exact Hrun].
              intros x Hx. now destruct x.
           ++ change (head ++ ?s :: ?d :: ?r) with (head ++ [s] ++ d :: r)
                in Hsplit.
              rewrite app_assoc in Hsplit.
              apply split_at_unique with (p := is_dump) in Hsplit;
                [| apply Forall_app; split; [exact Hhead | repeat constructor]
                 | eapply Forall_impl; [|exact Hrun];
                   intros x Hx; now destruct x
                 | reflexivity ].
              destruct Hsplit as (-> & [= -> ->] & ->).
              apply Z.ltb_ge in Hneg.
              split; [reflexivity|]. split; [|split].
              ** eexists _, _, _, _, _, _.
                 split; [reflexivity|]. split; [exact Hneg | reflexivity].
              ** apply Forall_app. split; [exact Hhead' | repeat constructor].
              ** eapply Forall_impl; [|exact Hrun].
                 intros x Hx. now destruct x.
Qed.

End ProgramFacts.

(** ** Aggregation *)

(** C1: when [event_scaled_value] is 0 on every handle that is not
    applicable, [print_data_aggr] prints for each event, in list order,
    the sum of the scaled values of its valid targets modulo 2^64; an
    event with no valid target is reported as 0. *)
Theorem print_data_aggr_sums_valid_targets (esv : event -> nat -> Z)
    (el : eventlist) (ts : Z) (print_ts : bool) :
  (forall e i, In e (el_eventlist el) -> In i (cpu_indices el) ->
               fd (efd e i) < 0 -> esv e i = 0) ->
  value_lines (print_data_aggr esv el ts print_ts)
  = map (fun e => Printf_aggr (display_name e)
                    (valid_sum esv el e mod u64_modulus))
        (el_eventlist el)
  /\ forall e, In e (el_eventlist el) ->
               filter (valid_target e) (cpu_indices el) = [] ->
               In (Printf_aggr (display_name e) 0)
                  (print_data_aggr esv el ts print_ts).
Proof.
  intros Hna.
  assert (value_lines (print_data_aggr esv el ts print_ts)
          = map (fun e => Printf_aggr (display_name e)
                            (valid_sum esv el e mod u64_modulus))
                (el_eventlist el)) as Hlines.
  { rewrite value_lines_print_data_aggr. apply map_ext_in.
    intros e He. unfold all_sum, valid_sum.
    rewrite (sum_filter_zero (esv e) (valid_target e)); [reflexivity|].
    intros i Hi Hv. apply (Hna e i He Hi). now apply valid_target_false. }
  split; [exact Hlines|].
  intros e He Hnone.
  assert (In (Printf_aggr (display_name e) 0)
             (value_lines (print_data_aggr esv el ts print_ts))) as Hin.
  { rewrite Hlines. apply in_map_iff. exists e. split; [|exact He].
    unfold valid_sum. rewrite Hnone. reflexivity. }
  unfold value_lines in Hin. now apply filter_In in Hin.
Qed.

Lemma print_data_aggr_sums_valid_targets_witness :
  (forall e i, In e (el_eventlist Demo.el_masked) ->
               In i (cpu_indices Demo.el_masked) ->
               fd (efd e i) < 0 -> Session.event_scaled_value 0 e i = 0)
  /\ value_lines (print_data_aggr (Session.event_scaled_value 0)
                    Demo.el_masked 0 false)
     = [Printf_aggr "cycles" 7].
Proof.
  assert (forall e i, In e (el_eventlist Demo.el_masked) ->
                      In i (cpu_indices Demo.el_masked) ->
                      fd (efd e i) < 0 ->
                      Session.event_scaled_value 0 e i = 0) as H.
  { intros e i [<- | []] [<- | [<- | []]] Hfd.
    - simpl in Hfd. lia.
    - reflexivity. }
  split; [exact H|].
  exact (proj1 (print_data_aggr_sums_valid_targets
                  (Session.event_scaled_value 0) Demo.el_masked 0 false H)).
Defined.

(** The printed value is not the sum itself: two valid targets with a
    scaled value of 2^63 each sum to 2^64, and [print_data_aggr] prints
    0. *)
Lemma aggregate_sum_wraps :
  value_lines (print_data_aggr (Session.event_scaled_value 0)
                 Demo.el_large 0 false)
  <> map (fun e => Printf_aggr (display_name e)
                     (valid_sum (Session.event_scaled_value 0)
                        Demo.el_large e))
         (el_eventlist Demo.el_large).
Proof. vm_compute. discriminate. Qed.

(** [print_data_aggr] calls [event_scaled_value] on every target of
    every event, whatever its descriptor. *)
Lemma print_data_aggr_scales_all (esv : event -> nat -> Z) (el : eventlist)
    (ts : Z) (print_ts : bool) (e : event) (i : nat) :
  In e (el_eventlist el) -> In i (cpu_indices el) ->
  In (Event_scaled_value e i (esv e i)) (print_data_aggr esv el ts print_ts).
Proof.
  intros He Hi. unfold print_data_aggr. apply in_flat_map.
  exists e. split; [exact He|]. rewrite print_event_aggr_eq.
  apply in_app_iff. left. apply in_map_iff. now exists i.
Qed.

(** C2: for [jestat -a -C 0 -e cycles] on two CPUs, CPU 1 is excluded by
    the mask and its handle holds the descriptor -1; the aggregate report
    nevertheless calls [event_scaled_value] on it and adds the result to
    the sum, while with [-A] the same handle is skipped. *)
Theorem aggregate_scales_masked_cpu :
  scaled_handles (trace (@main Demo.library Demo.env
                    [Opt_a; Opt_C "0"; Opt_e "cycles"] []))
  = [(0%nat, 3, 7); (1%nat, -1, 0)]
  /\ scaled_handles (trace (@main Demo.library Demo.env
                       [Opt_a; Opt_C "0"; Opt_A; Opt_e "cycles"] []))
     = [(0%nat, 3, 7)].
Proof. split; vm_compute; reflexivity. Qed.

(** ** Scaling and reading *)

(** C3: for a handle with a positive running time, [event_scaled_value]
    is [raw_count * (enabled_time / running_time)] truncated to an
    integer, that is the quotient of [raw_count * enabled_time] by
    [running_time]; it is the raw count exactly when the enabled time is
    the running time, and 200 for a raw count of 100 that ran half of the
    enabled time. *)
Theorem event_scaled_value_scaling (unavailable : Z) (e : event) (cpu : nat) :
  let h := efd e cpu in
  0 < running_time h ->
  Session.event_scaled_value unavailable e cpu
  = Session.Qtrunc (inject_Z (raw_count h)
                    * (inject_Z (enabled_time h) / inject_Z (running_time h)))
  /\ Session.event_scaled_value unavailable e cpu
     = Z.quot (raw_count h * enabled_time h) (running_time h)
  /\ (enabled_time h = running_time h ->
      Session.event_scaled_value unavailable e cpu = raw_count h)
  /\ (enabled_time h = 2 * running_time h -> raw_count h = 100 ->
      Session.event_scaled_value unavailable e cpu = 200).
Proof.
  intros h Hrun.
  assert (Session.event_scaled_value unavailable e cpu
          = Z.quot (raw_count h * enabled_time h) (running_time h)) as Hquot.
  { unfold Session.event_scaled_value. fold h.
    now rewrite scaled_value_running. }
  split; [|split; [exact Hquot | split]].
  - unfold Session.event_scaled_value, Session.scaled_value. fold h.
    destruct (0 <? running_time h) eqn:E; [reflexivity|].
    apply Z.ltb_ge in E. lia.
  - intros Heq. rewrite Hquot, Heq. apply Z.quot_mul. lia.
  - intros Heq H100. rewrite Hquot, Heq, H100.
    replace (100 * (2 * running_time h)) with (200 * running_time h) by lia.
    apply Z.quot_mul. lia.
Qed.

Lemma event_scaled_value_scaling_witness :
  0 < 10
  /\ Session.event_scaled_value 0
       (mk_event "cycles" None (fun _ => mk_efd 4 100 20 10)) 0 = 200.
Proof.
  assert (0 < 10) as H by lia.
  split; [exact H|].
  exact (proj2 (proj2 (proj2
    (event_scaled_value_scaling 0
       (mk_event "cycles" None (fun _ => mk_efd 4 100 20 10)) 0 H)))
    eq_refl eq_refl).
Defined.

(** C7: reading twice from the same counters gives every target of every
    event the scaled value of reading once; more generally a read
    overwrites whatever an earlier read left, so nothing of the earlier
    snapshot survives. *)
Theorem read_all_events_idempotent (unavailable : Z)
    (k0 k : Session.kernel) (el : eventlist) (cpu : nat) :
  map (fun e => Session.event_scaled_value unavailable e cpu)
      (el_eventlist (Session.read_all_events k (Session.read_all_events k el)))
  = map (fun e => Session.event_scaled_value unavailable e cpu)
        (el_eventlist (Session.read_all_events k el))
  /\ map (fun e => Session.event_scaled_value unavailable e cpu)
         (el_eventlist
            (Session.read_all_events k (Session.read_all_events k0 el)))
     = map (fun e => Session.event_scaled_value unavailable e cpu)
           (el_eventlist (Session.read_all_events k el)).
Proof.
  assert (forall k1,
    map (fun e => Session.event_scaled_value unavailable e cpu)
        (el_eventlist
           (Session.read_all_events k (Session.read_all_events k1 el)))
    = map (fun e => Session.event_scaled_value unavailable e cpu)
          (el_eventlist (Session.read_all_events k el))) as H.
  { intros k1. unfold Session.read_all_events. cbn [el_eventlist num_cpus].
    rewrite !map_map. apply map_ext. intros e.
    unfold Session.event_scaled_value. cbn [efd].
    destruct (Z.of_nat cpu <? num_cpus el); [|reflexivity].
    now rewrite read_event_overwrites. }
  split; apply H.
Qed.

(** ** Runs on the concrete machine *)

Lemma parse_failure_exits_witness :
  In (Parse_events (mk_eventlist [] 2) "bogus" (-1))
     (trace (@main Demo.library Demo.env [Opt_e "bogus"] ["true"%string]))
  /\ -1 < 0
  /\ result (@main Demo.library Demo.env [Opt_e "bogus"] ["true"%string])
     = Exited 1.
Proof.
  assert (In (Parse_events (mk_eventlist [] 2) "bogus" (-1))
             (trace (@main Demo.library Demo.env [Opt_e "bogus"]
                       ["true"%string]))) as H
    by (vm_compute; auto).
  assert (-1 < 0) as Hneg by lia.
  split; [exact H|]. split; [exact Hneg|].
  exact (proj1 (@parse_failure_exits Demo.library Demo.env
                  [Opt_e "bogus"] ["true"%string] _ _ _ H Hneg)).
Defined.

Lemma attach_failure_aborts_witness :
  In (Setup_events_cpumask Demo.el_default true 100 None (-1))
     (trace (@main Demo.library Demo.env [Opt_a] []))
  /\ -1 < 0
  /\ result (@main Demo.library Demo.env [Opt_a] []) = Exited 1.
Proof.
  assert (In (Setup_events_cpumask Demo.el_default true 100 None (-1))
             (trace (@main Demo.library Demo.env [Opt_a] []))) as H
    by (vm_compute; do 6 right; left; reflexivity).
  assert (-1 < 0) as Hneg by lia.
  split; [exact H|]. split; [exact Hneg|].
  exact (proj1 (@attach_failure_aborts Demo.library Demo.env
                  [Opt_a] [] _ _ _ _ _ H Hneg)).
Defined.

Lemma reads_follow_setup_witness :
  trace (@main Demo.library Demo.env [Opt_a; Opt_e "cycles"] [])
  = firstn 10 (trace (@main Demo.library Demo.env
                        [Opt_a; Opt_e "cycles"] []))
    ++ Read_all_events Demo.el_cycles_open
    :: skipn 11 (trace (@main Demo.library Demo.env
                          [Opt_a; Opt_e "cycles"] []))
  /\ exists a,
       In a (firstn 10 (trace (@main Demo.library Demo.env
                                 [Opt_a; Opt_e "cycles"] [])))
       /\ is_setup_ok a = true.
Proof.
  assert (trace (@main Demo.library Demo.env [Opt_a; Opt_e "cycles"] [])
          = firstn 10 (trace (@main Demo.library Demo.env
                                [Opt_a; Opt_e "cycles"] []))
            ++ Read_all_events Demo.el_cycles_open
            :: skipn 11 (trace (@main Demo.library Demo.env
                                  [Opt_a; Opt_e "cycles"] []))) as H
    by (vm_compute; reflexivity).
  split; [exact H|].
  exact (@reads_follow_setup Demo.library Demo.env
           [Opt_a; Opt_e "cycles"] [] _ _ _ H).
Defined.

Lemma parse_calls_follow_options_witness :
  early_free (trace (@main Demo.library Demo.env
                       [Opt_e "cycles"; Opt_a; Opt_e "cycles"] [])) = true
  /\ e_args [Opt_e "cycles"; Opt_a; Opt_e "cycles"] <> []
  /\ filter is_parse (trace (@main Demo.library Demo.env
                               [Opt_e "cycles"; Opt_a; Opt_e "cycles"] []))
     = @parse_chain Demo.library (mk_eventlist [] 2)
         ["cycles"%string; "cycles"%string].
Proof.
  assert (early_free (trace (@main Demo.library Demo.env
            [Opt_e "cycles"; Opt_a; Opt_e "cycles"] [])) = true) as H
    by (vm_compute; reflexivity).
  assert (e_args [Opt_e "cycles"; Opt_a; Opt_e "cycles"] <> []) as He
    by (simpl; discriminate).
  split; [exact H|]. split; [exact He|].
  exact (proj2 (@parse_calls_follow_options Demo.library Demo.env
                  [Opt_e "cycles"; Opt_a; Opt_e "cycles"] [])
               H (or_introl He)).
Defined.

(** Without [-e], without a command and without [-a], the program leaves
    before it parses the default specification: it never calls
    [parse_events]. *)
Lemma default_not_parsed_without_command :
  e_args [] = []
  /\ filter is_parse (trace (@main Demo.library Demo.env [] [])) = []
  /\ result (@main Demo.library Demo.env [] []) = Exited 1.
Proof. repeat split. Qed.

Lemma no_command_exits_witness :
  existsb is_opt_a [Opt_e "cycles"] = false
  /\ result (@main Demo.library Demo.env [Opt_e "cycles"] []) = Exited 1.
Proof.
  assert (existsb is_opt_a [Opt_e "cycles"] = false) as H by reflexivity.
  split; [exact H|].
  exact (proj1 (@no_command_exits Demo.library Demo.env
                  [Opt_e "cycles"] H)).
Defined.

(** With an unrecognised option, no command and no [-a], the program
    prints the usage text and exits with status 1; the message about the
    missing command is never printed. *)
Lemma usage_exit_without_message :
  existsb is_opt_a [Opt_unknown] = false
  /\ trace (@main Demo.library Demo.env [Opt_unknown] [])
     = [Setlocale; Alloc_eventlist; Usage_message]
  /\ ~ In (Fprintf_stderr "Specify command or -a
")
          (trace (@main Demo.library Demo.env [Opt_unknown] [])).
Proof.
  repeat split. vm_compute. intros [H | [H | [H | []]]]; discriminate.
Qed.

(** ** More about the reports *)

Lemma no_aggr_cpus_filter (esv : event -> nat -> Z) (ts : Z)
    (print_ts : bool) (e : event) (cpus : list nat) :
  no_aggr_cpus esv ts print_ts e cpus
  = flat_map (fun i => Event_scaled_value e i (esv e i)
                         :: print_ts_prefix ts print_ts
                         ++ [Printf_cpu i (display_name e) (esv e i)])
             (filter (valid_target e) cpus).
Proof.
  induction cpus as [|i rest IH]; [reflexivity|].
  cbn [no_aggr_cpus filter]. unfold valid_target at 1.
  destruct (fd (efd e i) <? 0) eqn:Hfd.
  - apply Z.ltb_lt in Hfd.
    destruct (0 <=? fd (efd e i)) eqn:Hv; [apply Z.leb_le in Hv; lia|].
    exact IH.
  - apply Z.ltb_ge in Hfd.
    destruct (0 <=? fd (efd e i)) eqn:Hv; [|apply Z.leb_gt in Hv; lia].
    cbn [flat_map]. rewrite IH. cbn [app]. rewrite <- app_assoc.
    reflexivity.
Qed.

(** X1: In per-CPU mode the report is, event after event and CPU after CPU,
    one call of [event_scaled_value] and one line for each target with a
    real descriptor, and nothing for the others: the lines are exactly
    those of the valid targets, with the values the calls returned. *)
Theorem print_data_no_aggr_lines (esv : event -> nat -> Z) (el : eventlist)
    (ts : Z) (print_ts : bool) :
  value_lines (print_data_no_aggr esv el ts print_ts)
  = flat_map (fun e => map (fun i => Printf_cpu i (display_name e) (esv e i))
                           (filter (valid_target e) (cpu_indices el)))
             (el_eventlist el)
  /\ scaled_handles (print_data_no_aggr esv el ts print_ts)
     = flat_map (fun e => map (fun i => (i, fd (efd e i), esv e i))
                              (filter (valid_target e) (cpu_indices el)))
                (el_eventlist el).
Proof.
  unfold print_data_no_aggr.
  induction (el_eventlist el) as [|e rest [IH1 IH2]]; [split; reflexivity|].
  cbn [flat_map]. rewrite value_lines_app, IH1.
  assert (forall t1 t2, scaled_handles (t1 ++ t2)
                        = scaled_handles t1 ++ scaled_handles t2) as Happ.
  { induction t1 as [|a t1 IHt]; intros t2; [reflexivity|].
    destruct a; cbn [app scaled_handles]; rewrite ?IHt; reflexivity. }
  rewrite Happ, IH2. rewrite no_aggr_cpus_filter.
  split; f_equal.
  - induction (filter (valid_target e) (cpu_indices el)) as [|i tl IHi];
      [reflexivity|].
    cbn [flat_map map]. rewrite value_lines_app, IHi.
    destruct print_ts; reflexivity.
  - induction (filter (valid_target e) (cpu_indices el)) as [|i tl IHi];
      [reflexivity|].
    cbn [flat_map map]. rewrite Happ, IHi.
    destruct print_ts; reflexivity.
Qed.

Lemma stdout_lines_app (t1 t2 : list action) :
  stdout_lines (t1 ++ t2) = stdout_lines t1 ++ stdout_lines t2.
Proof. apply filter_app. Qed.

Lemma stdout_lines_flat_map {A : Type} (f : A -> list action) (l : list A) :
  stdout_lines (flat_map f l) = flat_map (fun x => stdout_lines (f x)) l.
Proof.
  induction l as [|x l IH]; [reflexivity|].
  cbn [flat_map]. now rewrite stdout_lines_app, IH.
Qed.

Lemma value_lines_flat_map {A : Type} (f : A -> list action) (l : list A) :
  value_lines (flat_map f l) = flat_map (fun x => value_lines (f x)) l.
Proof.
  induction l as [|x l IH]; [reflexivity|].
  cbn [flat_map]. now rewrite value_lines_app, IH.
Qed.

Lemma flat_map_flat_map {A B C : Type} (f : A -> list B) (g : B -> list C)
    (l : list A) :
  flat_map g (flat_map f l) = flat_map (fun x => flat_map g (f x)) l.
Proof.
  induction l as [|x l IH]; [reflexivity|].
  cbn [flat_map]. now rewrite flat_map_app, IH.
Qed.

Lemma stdout_lines_scaled (esv : event -> nat -> Z) (e : event)
    (cpus : list nat) :
  stdout_lines (map (fun i => Event_scaled_value e i (esv e i)) cpus) = [].
Proof. induction cpus; simpl; auto. Qed.

(** X2: The flag [print_ts] only decides the time stamps: with it, every
    value line of the report is preceded by the time stamp of the report;
    without it, the report has the same value lines and no time stamp.
    This holds in both modes. *)
Theorem print_data_time_stamps (esv : event -> nat -> Z) (el : eventlist)
    (ts ts' : Z) (na : bool) :
  stdout_lines (print_data esv el ts true na)
  = flat_map (fun v => [Printf_ts ts; v])
             (value_lines (print_data esv el ts' false na))
  /\ stdout_lines (print_data esv el ts' false na)
     = value_lines (print_data esv el ts' false na).
Proof.
  unfold print_data. destruct na.
  - unfold print_data_no_aggr.
    rewrite !stdout_lines_flat_map, !value_lines_flat_map, flat_map_flat_map.
    split; apply flat_map_ext; intros e; rewrite !no_aggr_cpus_filter;
      rewrite ?stdout_lines_flat_map, ?value_lines_flat_map,
        ?flat_map_flat_map; apply flat_map_ext; intros i; reflexivity.
  - unfold print_data_aggr.
    rewrite !stdout_lines_flat_map, !value_lines_flat_map, flat_map_flat_map.
    split; apply flat_map_ext; intros e; rewrite !print_event_aggr_eq;
      rewrite ?stdout_lines_app, ?value_lines_app, ?stdout_lines_scaled,
        ?value_lines_scaled; reflexivity.
Qed.

(** X3: Without CPUs ([num_cpus <= 0]) the per-CPU report is empty, while the
    aggregate report still prints one line per event, with the value 0
    and without any call of [event_scaled_value]. *)
Theorem report_without_cpus (esv : event -> nat -> Z) (el : eventlist)
    (ts : Z) (print_ts : bool) :
  num_cpus el <= 0 ->
  print_data esv el ts print_ts true = []
  /\ print_data esv el ts print_ts false
     = flat_map (fun e => print_ts_prefix ts print_ts
                            ++ [Printf_aggr (display_name e) 0])
                (el_eventlist el).
Proof.
  intros Hn.
  assert (cpu_indices el = []) as Hc.
  { unfold cpu_indices. replace (Z.to_nat (num_cpus el)) with 0%nat by lia.
    reflexivity. }
  unfold print_data, print_data_no_aggr, print_data_aggr. rewrite Hc. split.
  - induction (el_eventlist el) as [|e rest IH]; [reflexivity | exact IH].
  - apply flat_map_ext. intros e. rewrite print_event_aggr_eq.
    unfold all_sum. rewrite Hc. reflexivity.
Qed.

Lemma report_without_cpus_witness :
  num_cpus (mk_eventlist (el_eventlist Demo.el_masked) 0) <= 0
  /\ print_data (Session.event_scaled_value 0)
       (mk_eventlist (el_eventlist Demo.el_masked) 0) 5 false false
     = [Printf_aggr "cycles" 0].
Proof.
  assert (num_cpus (mk_eventlist (el_eventlist Demo.el_masked) 0) <= 0)
    as H by (simpl; lia).
  split; [exact H|].
  exact (proj2 (report_without_cpus (Session.event_scaled_value 0)
                  (mk_eventlist (el_eventlist Demo.el_masked) 0) 5 false H)).
Defined.

(** A time stamp in a report is the one [print_data] was given, and
    there is none without [print_ts]. *)
Lemma print_data_ts_in (esv : event -> nat -> Z) (el : eventlist)
    (ts0 ts : Z) (print_ts na : bool) :
  In (Printf_ts ts0) (print_data esv el ts print_ts na) ->
  print_ts = true /\ ts0 = ts.
Proof.
  assert (forall x, In (Printf_ts ts0) (print_ts_prefix x print_ts) ->
                    print_ts = true /\ ts0 = x) as Hpre.
  { intros x. destruct print_ts; simpl; [|tauto].
    intros [[= <-] | []]. auto. }
  unfold print_data. destruct na.
  - unfold print_data_no_aggr. rewrite in_flat_map.
    intros (e & _ & Hin). rewrite no_aggr_cpus_filter, in_flat_map in Hin.
    destruct Hin as (i & _ & [H | Hin]); [discriminate|].
    apply in_app_iff in Hin. destruct Hin as [Hin | [H | []]];
      [now apply Hpre | discriminate].
  - unfold print_data_aggr. rewrite in_flat_map.
    intros (e & _ & Hin). rewrite print_event_aggr_eq in Hin.
    rewrite !in_app_iff, in_map_iff in Hin.
    destruct Hin as [(i & H & _) | [Hin | [H | []]]];
      [discriminate | now apply Hpre | discriminate].
Qed.

(** The kind of the value lines of a report follows the mode. *)
Lemma print_data_line_kind (esv : event -> nat -> Z) (el : eventlist)
    (ts : Z) (print_ts na : bool) :
  Forall (fun a => if na then is_aggr_line a = false
                   else is_cpu_line a = false)
         (print_data esv el ts print_ts na).
Proof.
  apply Forall_forall. intros a Ha. unfold print_data in Ha. destruct na.
  - apply print_data_no_aggr_valid in Ha. destruct a; simpl in *; tauto.
  - unfold print_data_aggr in Ha. apply in_flat_map in Ha.
    destruct Ha as (e & _ & Ha). rewrite print_event_aggr_eq in Ha.
    rewrite !in_app_iff, in_map_iff in Ha.
    destruct Ha as [(i & <- & _) | [Ha | [<- | []]]]; try reflexivity.
    destruct print_ts; simpl in Ha; [|tauto].
    destruct Ha as [<- | []]; reflexivity.
Qed.

(** ** More about the program *)

Section MoreProgramFacts.

Context {L : Library}.

(** *** The waiting loop *)

Lemma reads_app (t1 t2 : list action) :
  reads (t1 ++ t2) = (reads t1 + reads t2)%nat.
Proof. unfold reads. now rewrite filter_app, length_app. Qed.

Lemma reads_print_data (e : eventlist) (ts : Z) (print_ts na : bool) :
  reads (print_data event_scaled_value e ts print_ts na) = 0%nat.
Proof.
  unfold reads. rewrite filter_none; [reflexivity|].
  eapply Forall_impl; [|apply print_data_actions].
  intros a Ha. now destruct a.
Qed.

(** [cont_measure] on a wake-up, when the flag [gotalarm] was clear before
    the wait. *)
Lemma cont_measure_tick (armed : bool) (w : wake) (g : globals)
    (e : eventlist) (na : bool) :
  gotalarm g = false ->
  cont_measure w (mk_globals (gotalarm g || (armed && w_sigalrm w))
                             (starttime g)) e na
  = if is_tick armed w then
      let start := if starttime g =? 0 then w_time_start w else starttime g in
      (Read_all_events e
         :: print_data event_scaled_value (read_all_events (w_kernel w) e)
              (w_time w - start) true na,
       (true, mk_globals false start, read_all_events (w_kernel w) e))
    else ([], (false, mk_globals (armed && w_sigalrm w) (starttime g), e)).
Proof.
  intros Hg. unfold cont_measure, is_tick. rewrite Hg.
  cbn [gotalarm starttime orb]. now destruct (_ && _).
Qed.

Lemma measure_loop_reads (wait : Z -> action) (armed : bool)
    (ws : list wake) (g : globals) (e : eventlist) (na : bool) :
  (forall r, is_read (wait r) = false) ->
  gotalarm g = false ->
  reads (fst (measure_loop wait armed ws g e na))
  = List.length (leading_ticks armed ws)
  /\ (snd (measure_loop wait armed ws g e na) = inr Waiting
      <-> leading_ticks armed ws = ws)
  /\ (forall o, snd (measure_loop wait armed ws g e na) = inr o ->
                o = Waiting).
Proof.
  intros Hwait. revert g e.
  induction ws as [|w rest IH]; intros g e Hg.
  - cbn. repeat split; auto. intros o [= <-]. reflexivity.
  - rewrite measure_loop_cons. cbv zeta.
    rewrite (cont_measure_tick armed w g e na Hg).
    cbn [leading_ticks]. destruct (is_tick armed w).
    + cbv zeta. rewrite bind_emit, bind_emits. cbn [fst snd].
      specialize (IH (mk_globals false
                        (if starttime g =? 0 then w_time_start w
                         else starttime g))
                     (read_all_events (w_kernel w) e) eq_refl).
      destruct IH as (IH1 & IH2 & IH3).
      change (wait (w_ret w) :: ?t) with ([wait (w_ret w)] ++ t).
      rewrite reads_app. unfold reads at 1. cbn [filter].
      rewrite Hwait. cbn [List.length Nat.add].
      change (Read_all_events e :: ?t) with ([Read_all_events e] ++ t).
      rewrite <- app_assoc, !reads_app, reads_print_data, IH1.
      split; [reflexivity|]. split; [|exact IH3].
      rewrite IH2. split; [now intros -> | now intros [= ->]].
    + rewrite bind_emit, bind_emits. cbn [fst snd app].
      unfold reads. cbn [filter]. rewrite Hwait.
      split; [reflexivity|]. split; [|intros o; discriminate].
      split; discriminate.
Qed.

(** X4: In the waiting loop every tick of the timer, and nothing else, is
    followed by one [read_all_events]: the number of reads is the number
    of wake-ups before the first that is no tick.  The loop is still
    waiting exactly when every recorded wake-up was a tick; without an
    interval it never reads. *)
Theorem interval_reports (env : environment) (l : locals) (e : eventlist)
    (pid : Z) :
  reads (fst (wait_loops env l e pid))
  = List.length (leading_ticks (negb (interval l =? 0)) (env_wakes env))
  /\ (snd (wait_loops env l e pid) = inr Waiting
      <-> leading_ticks (negb (interval l =? 0)) (env_wakes env)
          = env_wakes env)
  /\ (interval l = 0 -> reads (fst (wait_loops env l e pid)) = 0%nat).
Proof.
  assert (reads (fst (wait_loops env l e pid))
          = List.length (leading_ticks (negb (interval l =? 0))
                           (env_wakes env))
          /\ (snd (wait_loops env l e pid) = inr Waiting
              <-> leading_ticks (negb (interval l =? 0)) (env_wakes env)
                  = env_wakes env)) as [H1 H2].
  { unfold wait_loops. destruct (0 <=? pid).
    - rewrite bind_emit. cbn [fst snd].
      destruct (measure_loop_reads (Waitpid pid) (negb (interval l =? 0))
                  (env_wakes env) (mk_globals false 0) e (no_aggr l)
                  (fun _ => eq_refl) eq_refl) as (H1 & H2 & _).
      split; [|exact H2]. rewrite <- H1. reflexivity.
    - destruct (measure_loop_reads Pause (negb (interval l =? 0))
                  (env_wakes env) (mk_globals false 0) e (no_aggr l)
                  (fun _ => eq_refl) eq_refl) as (H1 & H2 & _).
      split; assumption. }
  split; [exact H1|]. split; [exact H2|].
  intros Hi. rewrite H1, Hi. cbn [Z.eqb negb].
  destruct (env_wakes env) as [|w ws]; [reflexivity|].
  cbn [leading_ticks]. unfold is_tick. cbn [andb].
  now rewrite andb_false_r.
Qed.

Lemma measure_loop_ts (wait : Z -> action) (armed : bool) (ws : list wake)
    (g : globals) (e : eventlist) (na : bool) :
  (forall r, is_ts (wait r) = false) ->
  starttime g <> 0 ->
  (forall ts, In (Printf_ts ts) (fst (measure_loop wait armed ws g e na)) ->
              exists w, In w ws /\ ts = w_time w - starttime g)
  /\ (forall g' e', snd (measure_loop wait armed ws g e na) = inl (g', e') ->
                    starttime g' = starttime g).
Proof.
  intros Hwait. revert g e.
  induction ws as [|w rest IH]; intros g e Hs.
  - cbn. split; [tauto | discriminate].
  - rewrite measure_loop_cons. cbv zeta. unfold cont_measure.
    cbn [gotalarm starttime].
    destruct (starttime g =? 0) eqn:Hz; [apply Z.eqb_eq in Hz; lia|].
    destruct ((w_ret w <? 0) && (gotalarm g || (armed && w_sigalrm w))).
    + rewrite bind_emit, bind_emits. cbn [fst snd].
      destruct (IH (mk_globals false (starttime g))
                   (read_all_events (w_kernel w) e) Hs) as [IH1 IH2].
      cbn [starttime] in IH1, IH2. split; [|exact IH2].
      intros ts [H | [H | Hin]].
      * specialize (Hwait (w_ret w)). rewrite H in Hwait. discriminate.
      * discriminate.
      * apply in_app_iff in Hin. destruct Hin as [Hin | Hin].
        -- apply print_data_ts_in in Hin. destruct Hin as [_ ->].
           exists w. split; [now left | reflexivity].
        -- destruct (IH1 ts Hin) as (w' & Hw' & ->).
           exists w'. split; [now right | reflexivity].
    + rewrite bind_emit, bind_emits. cbn [fst snd app]. split.
      * intros ts [H | []].
        specialize (Hwait (w_ret w)). rewrite H in Hwait. discriminate.
      * intros g' e' [= <- _]. reflexivity.
Qed.

Lemma measure_loop_ts_first (wait : Z -> action) (armed : bool) (w0 : wake)
    (rest : list wake) (g : globals) (e : eventlist) (na : bool) :
  (forall r, is_ts (wait r) = false) ->
  starttime g = 0 ->
  w_time_start w0 <> 0 ->
  (forall ts,
      In (Printf_ts ts) (fst (measure_loop wait armed (w0 :: rest) g e na)) ->
      exists w, In w (w0 :: rest) /\ ts = w_time w - w_time_start w0)
  /\ (forall g' e',
        snd (measure_loop wait armed (w0 :: rest) g e na) = inl (g', e') ->
        starttime g' = 0 \/ starttime g' = w_time_start w0).
Proof.
  intros Hwait Hs H0.
  rewrite measure_loop_cons. cbv zeta. unfold cont_measure.
  cbn [gotalarm starttime]. rewrite Hs. cbn [Z.eqb].
  destruct ((w_ret w0 <? 0) && (gotalarm g || (armed && w_sigalrm w0))).
  - rewrite bind_emit, bind_emits. cbn [fst snd].
    destruct (measure_loop_ts wait armed rest
                (mk_globals false (w_time_start w0))
                (read_all_events (w_kernel w0) e) na Hwait H0) as [M1 M2].
    cbn [starttime] in M1, M2. split.
    + intros ts [H | [H | Hin]].
      * specialize (Hwait (w_ret w0)). rewrite H in Hwait. discriminate.
      * discriminate.
      * apply in_app_iff in Hin. destruct Hin as [Hin | Hin].
        -- apply print_data_ts_in in Hin. destruct Hin as [_ ->].
           exists w0. split; [now left | reflexivity].
        -- destruct (M1 ts Hin) as (w' & Hw' & ->).
           exists w'. split; [now right | reflexivity].
    + intros g' e' Hr. right. eapply M2. exact Hr.
  - rewrite bind_emit, bind_emits. cbn [fst snd app]. split.
    + intros ts [H | []].
      specialize (Hwait (w_ret w0)). rewrite H in Hwait. discriminate.
    + intros g' e' [= <- _]. now left.
Qed.

(** The parent once the counters are open, by its phases. *)
Lemma run_measurement_eq (env : environment) (l : locals) (e : eventlist)
    (pid : Z) :
  run_measurement env l e pid
  = (Signal_sigint
       :: fst (arm_timer (interval l))
       ++ fst (wait_loops env l e pid)
       ++ match snd (wait_loops env l e pid) with
          | inl ge => fst (final_report env l ge)
          | inr _ => []
          end,
     match snd (wait_loops env l e pid) with
     | inl ge => snd (final_report env l ge)
     | inr o => inr o
     end).
Proof.
  unfold run_measurement. rewrite bind_emit.
  assert (exists t, arm_timer (interval l) = (t, inl tt)) as [t Ht].
  { unfold arm_timer. destruct (interval l =? 0); [eexists; reflexivity|].
    rewrite bind_emit. eexists; reflexivity. }
  rewrite Ht, (bind_inl _ _ _ _ eq_refl). cbn [fst snd].
  destruct (wait_loops env l e pid) as [tw [ge|o]]; cbn [fst snd].
  - rewrite (bind_inl _ _ _ _ eq_refl). reflexivity.
  - rewrite (bind_inr _ _ _ _ eq_refl). cbn [fst snd].
    now rewrite app_nil_r.
Qed.

Lemma final_report_eq (env : environment) (l : locals) (g : globals)
    (e : eventlist) :
  final_report env l (g, e)
  = (Read_all_events e
       :: print_data event_scaled_value
            (read_all_events (env_kernel env) e)
            (env_time env - starttime g)
            (negb (interval l =? 0) && negb (starttime g =? 0))
            (no_aggr l),
     inr (Exited 0)).
Proof.
  unfold final_report. rewrite bind_emit, bind_emits. cbn [fst snd].
  now rewrite app_nil_r.
Qed.

Lemma arm_timer_no_ts (itv : Z) (ts : Z) :
  ~ In (Printf_ts ts) (fst (arm_timer itv)).
Proof.
  unfold arm_timer. destruct (itv =? 0); [simpl; tauto|].
  rewrite bind_emit. simpl. intros [H | [H | []]]; discriminate.
Qed.

(** X5: All time stamps of a run count from one clock reading, the one taken
    at the first wake-up: a time stamp printed by the parent is the clock
    at some wake-up, or the clock at the final report, minus that first
    reading.  ([starttime] is set once and never changes.) *)
Theorem time_stamps_from_first_tick (env : environment) (l : locals)
    (e : eventlist) (pid : Z) (w0 : wake) (rest : list wake) (ts : Z) :
  env_wakes env = w0 :: rest ->
  w_time_start w0 <> 0 ->
  In (Printf_ts ts) (fst (run_measurement env l e pid)) ->
  ts = env_time env - w_time_start w0
  \/ exists w, In w (w0 :: rest) /\ ts = w_time w - w_time_start w0.
Proof.
  intros Hw H0. rewrite run_measurement_eq. cbn [fst].
  assert ((forall x, In (Printf_ts x) (fst (wait_loops env l e pid)) ->
                     exists w, In w (w0 :: rest)
                               /\ x = w_time w - w_time_start w0)
          /\ (forall g' e', snd (wait_loops env l e pid) = inl (g', e') ->
                            starttime g' = 0
                            \/ starttime g' = w_time_start w0))
    as [Hloop Hend].
  { unfold wait_loops. rewrite Hw. destruct (0 <=? pid).
    - rewrite bind_emit. cbn [fst snd].
      destruct (measure_loop_ts_first (Waitpid pid)
                  (negb (interval l =? 0)) w0 rest (mk_globals false 0) e
                  (no_aggr l) (fun _ => eq_refl) eq_refl H0) as [M1 M2].
      split; [|exact M2]. intros x [H | Hin]; [discriminate | auto].
    - apply (measure_loop_ts_first Pause (negb (interval l =? 0)) w0 rest
               (mk_globals false 0) e (no_aggr l) (fun _ => eq_refl)
               eq_refl H0). }
  intros [H | Hin]; [discriminate|].
  apply in_app_iff in Hin. destruct Hin as [Hin | Hin];
    [now apply arm_timer_no_ts in Hin|].
  apply in_app_iff in Hin. destruct Hin as [Hin | Hin]; [right; auto|].
  destruct (snd (wait_loops env l e pid)) as [[g' e']|o] eqn:Hs;
    [|destruct Hin].
  rewrite final_report_eq in Hin. cbn [fst] in Hin.
  destruct Hin as [H | Hin]; [discriminate|].
  apply print_data_ts_in in Hin. destruct Hin as [Hp ->].
  destruct (Hend g' e' eq_refl) as [Hz | Hz]; rewrite Hz in *.
  - cbn [Z.eqb negb] in Hp. rewrite andb_false_r in Hp. discriminate.
  - now left.
Qed.

(** *** The options and the calls they lead to *)

Lemma handle_opt_flags (o : opt) (l l' : locals) (t : list action) :
  handle_opt o l = (t, inl l') ->
  no_aggr l' = no_aggr l || is_opt_A o
  /\ cpumask l' = match o with Opt_C s => Some s | _ => cpumask l end
  /\ (is_opt_I o = false -> interval l' = interval l)
  /\ el l' = parsed_list (el l) (e_args [o]).
Proof.
  destruct o; cbn [handle_opt]; try (intros [= <- <-]; cbn;
    rewrite ?orb_false_r, ?orb_true_r; repeat split; auto; discriminate).
  - unfold handle_opt. destruct (parse_events (el l) optarg) as [r e'] eqn:Hp.
    rewrite bind_emit. destruct (r <? 0); cbn [fst snd ret stop];
      [discriminate|].
    intros [= <- <-]. cbn. rewrite orb_false_r, Hp. auto.
Qed.

Lemma getopt_loop_flags (opts : list opt) (l l' : locals) :
  snd (getopt_loop opts l) = inl l' ->
  no_aggr l' = no_aggr l || existsb is_opt_A opts
  /\ cpumask l'
     = fold_left (fun m o => match o with Opt_C s => Some s | _ => m end)
                 opts (cpumask l)
  /\ (existsb is_opt_I opts = false -> interval l' = interval l)
  /\ el l' = parsed_list (el l) (e_args opts).
Proof.
  revert l. induction opts as [|o rest IH]; intros l.
  - cbn. intros [= <-]. rewrite orb_false_r. auto.
  - rewrite getopt_loop_cons.
    destruct (handle_opt o l) as [t [l1|o1]] eqn:Hh.
    + rewrite (bind_inl _ _ _ _ eq_refl). cbn [snd]. intros Hrest.
      destruct (handle_opt_flags _ _ _ _ Hh) as (F1 & F2 & F3 & F4).
      destruct (IH _ Hrest) as (G1 & G2 & G3 & G4).
      rewrite e_args_cons. unfold parsed_list in *. rewrite fold_left_app.
      cbn [existsb fold_left]. rewrite G1, G2, G4, F1, F2, F4, orb_assoc.
      repeat split; auto.
      intros Hi. apply orb_false_iff in Hi. destruct Hi as [Hi1 Hi2].
      rewrite (G3 Hi2). auto.
    + rewrite (bind_inr _ _ _ _ eq_refl). discriminate.
Qed.

Lemma early_action_not_late (a : action) :
  is_parse a = true \/ a = Usage_message -> is_late a = false.
Proof. intros [H | ->]; [destruct a; try discriminate|]; reflexivity. Qed.

(** A run either leaves before [pipe] and [fork], with status 1, or
    reaches [fork] with the locals the option loop computed and the list
    all the specifications were parsed into. *)
Lemma main_shape (env : environment) (opts : list opt) (prog : list string) :
  (Forall (fun a => is_late a = false /\ is_fork a = false)
          (trace (main env opts prog))
   /\ result (main env opts prog) = Exited 1)
  \/ exists l head,
       snd (getopt_loop opts init_locals) = inl l
       /\ Forall (fun a => is_late a = false) head
       /\ trace (main env opts prog)
          = head ++ Fork (env_fork env)
            :: fst (after_fork env l
                      (parsed_list alloc_eventlist (specs_to_parse opts))
                      prog)
       /\ result (main env opts prog)
          = result (after_fork env l
                      (parsed_list alloc_eventlist (specs_to_parse opts))
                      prog)
       /\ (prog <> [] \/ measure_all l = true).
Proof.
  unfold trace, result. rewrite main_eq.
  pose proof (getopt_loop_actions opts init_locals) as Hact.
  assert (Forall (fun a => is_late a = false /\ is_fork a = false)
                 (fst (getopt_loop opts init_locals))) as Hopt.
  { eapply Forall_impl; [|exact Hact]. intros a Ha. split.
    - now apply early_action_not_late.
    - apply option_action_kind in Ha. tauto. }
  destruct (snd (getopt_loop opts init_locals)) as [l|o] eqn:Hg.
  - destruct (getopt_loop_done _ _ _ Hg) as (_ & _ & _ & Hev & _).
    destruct (getopt_loop_flags _ _ _ Hg) as (_ & _ & _ & Hel).
    cbn [el events init_locals] in Hev, Hel.
    destruct (check_command_cases l prog) as [[Hc Hp] | (Hc & _ & _)];
      rewrite Hc; cbn [fst snd].
    + destruct (parse_default_cases l) as [[Hn Hd] | (s & Hs & Hd)];
        rewrite Hd; cbn [fst snd].
      * right. exists l, (startup (fst (getopt_loop opts init_locals)
                                   ++ [Pipe; Signal_sigchld_ignore])).
        assert (specs_to_parse opts = e_args opts) as ->.
        { unfold specs_to_parse. destruct (e_args opts); congruence. }
        rewrite <- Hel. split; [reflexivity|]. split.
        { repeat constructor. apply Forall_app. split; [|repeat constructor].
          eapply Forall_impl; [|exact Hopt]. tauto. }
        split; [|split; auto].
        unfold startup. cbn [app]. rewrite <- app_assoc. reflexivity.
      * assert (e_args opts = [] /\ s = default_events) as [He ->].
        { destruct (e_args opts); [split; congruence | congruence]. }
        assert (specs_to_parse opts = [default_events]) as ->.
        { unfold specs_to_parse. now rewrite He. }
        rewrite He in Hel. cbn in Hel.
        destruct (fst (parse_events (el l) default_events) <? 0).
        -- left. split; [|reflexivity].
           repeat constructor. apply Forall_app. split; [exact Hopt|].
           repeat constructor.
        -- right.
           exists l, (startup (fst (getopt_loop opts init_locals)
                               ++ [Parse_events (el l) default_events
                                     (fst (parse_events (el l)
                                             default_events));
                                   Pipe; Signal_sigchld_ignore])).
           cbn [parsed_list fold_left]. rewrite <- Hel.
           split; [reflexivity|]. split.
           { repeat constructor. apply Forall_app.
             split; [|repeat constructor].
             eapply Forall_impl; [|exact Hopt]. tauto. }
           split; [|split; auto].
           unfold startup. cbn [app]. rewrite <- app_assoc. reflexivity.
    + left. split; [|reflexivity].
      repeat constructor. apply Forall_app. split; [exact Hopt|].
      repeat constructor.
  - destruct (getopt_loop_exit _ _ _ Hg) as (-> & _).
    left. split; [|reflexivity]. repeat constructor. exact Hopt.
Qed.

Lemma child_eq (env : environment) (prog : list string) :
  child env prog
  = (Child_read_pipe
       :: (if env_released env then
             match prog with
             | [] => [Child_pause]
             | _ :: _ =>
                 Child_execvp prog
                   :: if env_execvp_ok env then []
                      else [Child_write_stderr "Cannot execute program
"%string]
             end
           else []),
     inr (if env_released env then
            match prog with
            | [] => Blocked
            | _ :: _ => if env_execvp_ok env then Replaced else Exited 1
            end
          else Blocked)).
Proof.
  unfold child. rewrite bind_emit.
  destruct (env_released env); [|reflexivity].
  destruct prog as [|p ps].
  - now rewrite bind_emit.
  - rewrite bind_emit. destruct (env_execvp_ok env); [reflexivity|].
    now rewrite bind_emit.
Qed.

Lemma fork_not_in_early (t : list action) (f : Z) :
  Forall (fun a => is_late a = false /\ is_fork a = false) t ->
  ~ In (Fork f) t.
Proof.
  intros H Hin. rewrite Forall_forall in H. apply H in Hin.
  destruct Hin. discriminate.
Qed.


(** X7: When [fork] fails the program reports it with [perror("fork")] and
    exits with status 1; nothing follows, no counter is opened. *)
Theorem fork_failure_exits (env : environment) (opts : list opt)
    (prog : list string) :
  env_fork env < 0 ->
  In (Fork (env_fork env)) (trace (main env opts prog)) ->
  (exists pre,
      trace (main env opts prog)
      = pre ++ [Fork (env_fork env); Perror "fork"]
      /\ Forall (fun a => is_late a = false) pre)
  /\ result (main env opts prog) = Exited 1.
Proof.
  intros Hf Hin.
  destruct (main_shape env opts prog)
    as [[Hearly _] | (l & head & _ & Hhead & Ht & Hr & _)].
  - exfalso. revert Hin. now apply fork_not_in_early.
  - rewrite Ht, Hr. clear Ht Hr Hin.
    destruct (after_fork_cases env l
                (parsed_list alloc_eventlist (specs_to_parse opts)) prog)
      as [[_ ->] | [[H _] | [H _]]]; try lia.
    split; [|reflexivity]. exists head. auto.
Qed.

(** X8: An option the switch does not handle, [-p] included, ends the run
    with status 1 before [fork]: the last action is the usage text, or a
    failed parse of an earlier [-e]. *)
Theorem rejected_option_exits (env : environment) (opts : list opt)
    (prog : list string) :
  existsb is_opt_rejected opts = true ->
  result (main env opts prog) = Exited 1
  /\ (forall a, In a (trace (main env opts prog)) ->
                is_fork a = false /\ is_late a = false)
  /\ exists pre a,
       trace (main env opts prog) = pre ++ [a]
       /\ (a = Usage_message
           \/ exists e s r, a = Parse_events e s r /\ r < 0).
Proof.
  intros Hrej. unfold trace, result. rewrite main_eq.
  pose proof (getopt_loop_actions opts init_locals) as Hact.
  destruct (snd (getopt_loop opts init_locals)) as [l|o] eqn:Hg.
  - destruct (getopt_loop_done _ _ _ Hg) as (_ & H & _). congruence.
  - destruct (getopt_loop_exit _ _ _ Hg) as (-> & pre & a & Ht & Ha & _).
    cbn [fst snd]. split; [reflexivity|]. split.
    + intros x Hx. apply in_startup in Hx.
      destruct Hx as [-> | [-> | Hx]]; auto.
      rewrite Forall_forall in Hact. apply Hact in Hx. split.
      * apply option_action_kind in Hx. tauto.
      * now apply early_action_not_late.
    + rewrite Ht in *. exists (startup pre), a. split; [reflexivity|].
      assert (In a (pre ++ [a])) as Hin
        by (apply in_app_iff; right; now left).
      rewrite Forall_forall in Hact. apply Hact in Hin.
      destruct Hin as [Hp | ->]; [right | now left].
      destruct a; try discriminate. simpl in Ha. apply Z.ltb_lt in Ha.
      eauto.
Qed.

(** X9: The one call of [setup_events_cpumask] gets the list all the
    specifications were parsed into, [measure_all] exactly when [-a] is
    among the options, the pid [fork] returned to the parent, and the
    argument of the last [-C] (no mask without [-C]). *)
Theorem setup_arguments (env : environment) (opts : list opt)
    (prog : list string) (e : eventlist) (ma : bool) (pid : Z)
    (mask : option string) (r : Z) :
  In (Setup_events_cpumask e ma pid mask r) (trace (main env opts prog)) ->
  e = parsed_list alloc_eventlist (specs_to_parse opts)
  /\ ma = existsb is_opt_a opts
  /\ pid = env_fork env /\ 0 < pid
  /\ mask = cpumask_of opts
  /\ r = fst (setup_events_cpumask e ma pid mask).
Proof.
  intros Hin.
  destruct (main_shape env opts prog)
    as [[Hearly _] | (l & head & Hg & Hhead & Ht & _ & _)].
  - exfalso. rewrite Forall_forall in Hearly. apply Hearly in Hin.
    destruct Hin. discriminate.
  - rewrite Ht in Hin. clear Ht.
    destruct (getopt_loop_done _ _ _ Hg) as (_ & _ & Hma & _).
    destruct (getopt_loop_flags _ _ _ Hg) as (_ & Hmask & _).
    cbn [measure_all cpumask init_locals orb] in Hma, Hmask.
    apply in_app_iff in Hin. destruct Hin as [Hin | [H | Hin]];
      [|discriminate|].
    { exfalso. rewrite Forall_forall in Hhead. apply Hhead in Hin.
      discriminate. }
    destruct (after_fork_cases env l
                (parsed_list alloc_eventlist (specs_to_parse opts)) prog)
      as [[_ Ha] | [[_ Ha] | [Hpos Ha]]]; rewrite Ha in Hin; clear Ha.
    + destruct Hin as [H | []]; discriminate.
    + exfalso. pose proof (child_actions env prog) as Hc.
      rewrite Forall_forall in Hc. apply Hc in Hin. discriminate.
    + rewrite measure_eq in Hin. cbv zeta in Hin.
      set (e1 := snd (setup_events_cpumask
                        (parsed_list alloc_eventlist (specs_to_parse opts))
                        (measure_all l) (env_fork env) (cpumask l))) in *.
      assert (forall x, In x (fst (dump_attr l e1)
                              ++ fst (run_measurement env l e1 (env_fork env)))
                        -> is_setup x = false) as Hrest.
      { intros x Hx. apply in_app_iff in Hx. destruct Hx as [Hx | Hx].
        - unfold dump_attr in Hx. destruct (verbose l =? 0); [destruct Hx|].
          destruct Hx as [<- | []]. reflexivity.
        - pose proof (run_measurement_actions env l e1 (env_fork env)) as Hm.
          rewrite Forall_forall in Hm. apply Hm in Hx. now destruct x. }
      destruct (fst (setup_events_cpumask _ _ _ _) <? 0); cbn [fst] in Hin;
        (destruct Hin as [[= <- <- <- <- <-] | Hin];
         [ rewrite Hma; unfold cpumask_of; rewrite Hmask; auto 10 | ]).
      * destruct Hin.
      * apply Hrest in Hin. discriminate.
Qed.

(** *** The timer *)

(** X10: For a positive interval of [itv] milliseconds the handler of
    [SIGALRM] is installed and the timer is armed with exactly that time:
    whole seconds and a microsecond part below one second that add up to
    [itv] milliseconds.  With an interval of 0 nothing is installed or
    armed. *)
Theorem arm_timer_value (itv : Z) :
  0 < itv ->
  (exists sec usec,
      arm_timer itv = ([Sigaction_sigalrm; Setitimer sec usec], inl tt)
      /\ 0 <= sec /\ 0 <= usec < 1000000
      /\ sec * 1000000 + usec = itv * 1000)
  /\ arm_timer 0 = ([], inl tt).
Proof.
  intros Hpos. split; [|reflexivity].
  exists (Z.quot itv 1000), (Z.rem itv 1000 * 1000).
  unfold arm_timer. destruct (itv =? 0) eqn:Hz; [apply Z.eqb_eq in Hz; lia|].
  rewrite bind_emit. split; [reflexivity|].
  rewrite Z.quot_div_nonneg, Z.rem_mod_nonneg by lia.
  pose proof (Z.mod_pos_bound itv 1000 ltac:(lia)) as Hm.
  pose proof (Z.div_mod itv 1000 ltac:(lia)) as Hd.
  pose proof (Z.div_pos itv 1000 ltac:(lia) ltac:(lia)) as Hq.
  repeat split; lia.
Qed.

Lemma arm_timer_value_witness :
  0 < 1500
  /\ arm_timer 1500 = ([Sigaction_sigalrm; Setitimer 1 500000], inl tt).
Proof.
  assert (0 < 1500) as H by lia.
  split; [exact H|].
  destruct (proj1 (arm_timer_value 1500 H)) as (sec & usec & Heq & _).
  rewrite Heq. injection Heq as <- <-. reflexivity.
Defined.

(** *** Order and outcome *)

Lemma split_after (p : action -> bool) (A B pre post : list action)
    (s a : action) :
  Forall (fun x => p x = false) A ->
  p s = false ->
  p a = true ->
  A ++ s :: B = pre ++ a :: post ->
  In s pre.
Proof.
  intros HA Hs Ha. revert pre.
  induction HA as [|x A Hx _ IH]; intros pre Heq.
  - destruct pre as [|y pre]; simpl in Heq; injection Heq as -> Heq.
    + congruence.
    + now left.
  - destruct pre as [|y pre]; simpl in Heq; injection Heq as -> Heq.
    + congruence.
    + right. now apply IH.
Qed.

Lemma no_split (p : action -> bool) (t pre post : list action)
    (a : action) :
  Forall (fun x => p x = false) t -> p a = true -> t <> pre ++ a :: post.
Proof.
  intros Ht Ha ->. rewrite Forall_forall in Ht.
  assert (p a = false) by (apply Ht; rewrite in_app_iff; simpl; auto).
  congruence.
Qed.

(** X11: Nothing of the measurement happens before the counters are open:
    the write that releases the child, the timer, every wait, every read
    and every line of a report come after a call of
    [setup_events_cpumask] that returned a non-negative value. *)
Theorem measurement_follows_setup (env : environment) (opts : list opt)
    (prog : list string) (pre post : list action) (a : action) :
  trace (main env opts prog) = pre ++ a :: post ->
  is_measurement a = true ->
  exists s, In s pre /\ is_setup_ok s = true.
Proof.
  intros Ht Ha.
  destruct (main_shape env opts prog)
    as [[Hearly _] | (l & head & _ & Hhead & Hshape & _ & _)].
  - exfalso. revert Ht. apply (no_split is_measurement); [|exact Ha].
    eapply Forall_impl; [|exact Hearly].
    intros x [Hx _]. destruct x; try discriminate; reflexivity.
  - rewrite Hshape in Ht. clear Hshape.
    assert (Forall (fun x => is_measurement x = false)
                   (head ++ [Fork (env_fork env)])) as Hh.
    { apply Forall_app. split; [|repeat constructor].
      eapply Forall_impl; [|exact Hhead].
      intros x Hx. destruct x; try discriminate; reflexivity. }
    change (head ++ Fork (env_fork env) :: ?r)
      with (head ++ [Fork (env_fork env)] ++ r) in Ht.
    rewrite app_assoc in Ht.
    destruct (after_fork_cases env l
                (parsed_list alloc_eventlist (specs_to_parse opts)) prog)
      as [[_ Haf] | [[_ Haf] | [_ Haf]]]; rewrite Haf in Ht; clear Haf.
    + exfalso. revert Ht. apply (no_split is_measurement); [|exact Ha].
      apply Forall_app. split; [exact Hh | repeat constructor].
    + exfalso. revert Ht. apply (no_split is_measurement); [|exact Ha].
      apply Forall_app. split; [exact Hh|].
      eapply Forall_impl; [|apply child_actions].
      intros x Hx. now destruct x.
    + rewrite measure_eq in Ht. cbv zeta in Ht.
      destruct (fst (setup_events_cpumask _ _ _ _) <? 0) eqn:Hneg;
        cbn [fst] in Ht.
      * exfalso. revert Ht. apply (no_split is_measurement); [|exact Ha].
        apply Forall_app. split; [exact Hh | repeat constructor].
      * apply (split_after is_measurement) in Ht;
          [|exact Hh | reflexivity | exact Ha].
        eexists. split; [exact Ht|]. simpl.
        apply Z.ltb_ge in Hneg. now apply Z.leb_le.
Qed.

Lemma reads_none (t : list action) :
  Forall (fun a => is_read a = false) t -> reads t = 0%nat.
Proof. intros H. unfold reads. now rewrite filter_none. Qed.

Lemma not_late_not_read (t : list action) :
  Forall (fun a => is_late a = false) t ->
  Forall (fun a => is_read a = false) t.
Proof.
  apply Forall_impl. intros a Ha. destruct a; try discriminate; reflexivity.
Qed.

Lemma wait_loops_stop (env : environment) (l : locals) (e : eventlist)
    (pid : Z) (o : outcome) :
  snd (wait_loops env l e pid) = inr o -> o = Waiting.
Proof.
  unfold wait_loops. destruct (0 <=? pid).
  - rewrite bind_emit. cbn [snd].
    apply (measure_loop_reads (Waitpid pid) _ _ (mk_globals false 0) e
             (no_aggr l) (fun _ => eq_refl) eq_refl).
  - apply (measure_loop_reads Pause _ _ (mk_globals false 0) e
             (no_aggr l) (fun _ => eq_refl) eq_refl).
Qed.

(** X12: The exit status of the program is 0 or 1 and never that of the
    command.  Only the parent returns 0, and only after a final
    [read_all_events]; a run is replaced by the command only in the
    child; a run found still waiting is the parent, and a run blocked for
    good is the child. *)
Theorem exit_status (env : environment) (opts : list opt)
    (prog : list string) :
  result (main env opts prog) = Exited 1
  \/ (result (main env opts prog) = Exited 0
      /\ 0 < env_fork env
      /\ (1 <= reads (trace (main env opts prog)))%nat)
  \/ (result (main env opts prog) = Replaced
      /\ env_fork env = 0 /\ prog <> [])
  \/ (result (main env opts prog) = Waiting /\ 0 < env_fork env)
  \/ (result (main env opts prog) = Blocked /\ env_fork env = 0).
Proof.
  destruct (main_shape env opts prog)
    as [[_ Hr] | (l & head & _ & _ & Ht & Hr & _)]; [now left|].
  rewrite Hr, Ht. clear Hr Ht.
  destruct (after_fork_cases env l
              (parsed_list alloc_eventlist (specs_to_parse opts)) prog)
    as [[_ ->] | [[Hf ->] | [Hf ->]]].
  - now left.
  - rewrite child_eq. unfold result. cbn [snd].
    destruct (env_released env); [|do 4 right; auto].
    destruct prog as [|p ps]; [do 4 right; auto|].
    destruct (env_execvp_ok env); [|now left].
    right; right; left. repeat split; auto. discriminate.
  - rewrite measure_eq. cbv zeta.
    destruct (fst (setup_events_cpumask _ _ _ _) <? 0); [now left|].
    rewrite run_measurement_eq. unfold result. cbn [fst snd].
    destruct (snd (wait_loops env l _ (env_fork env))) as [[g e']|o] eqn:Hw.
    + rewrite final_report_eq. cbn [fst snd]. right; left.
      split; [reflexivity|]. split; [exact Hf|].
      rewrite !reads_app.
      change (Fork ?f :: ?s :: ?t) with ([Fork f; s] ++ t).
      rewrite !reads_app.
      change (Signal_sigint :: ?t) with ([Signal_sigint] ++ t).
      rewrite !reads_app.
      change (Read_all_events e' :: ?t) with ([Read_all_events e'] ++ t).
      rewrite !reads_app. unfold reads at 7. cbn [filter is_read List.length].
      lia.
    + apply wait_loops_stop in Hw. subst o. right; right; right; left. auto.
Qed.

(** *** What decides the look of the reports *)

Lemma measure_loop_unarmed (wait : Z -> action) (ws : list wake)
    (g : globals) (e : eventlist) (na : bool) :
  (forall r, is_read (wait r) = false /\ is_ts (wait r) = false) ->
  gotalarm g = false ->
  Forall (fun a => is_read a = false /\ is_ts a = false)
         (fst (measure_loop wait false ws g e na))
  /\ forall g' e', snd (measure_loop wait false ws g e na) = inl (g', e') ->
                   starttime g' = starttime g.
Proof.
  intros Hwait Hg. destruct ws as [|w rest].
  - cbn. split; [constructor | discriminate].
  - rewrite measure_loop_cons. cbv zeta.
    rewrite (cont_measure_tick false w g e na Hg).
    unfold is_tick. cbn [andb]. rewrite andb_false_r.
    rewrite bind_emit, bind_emits. cbn [fst snd app]. split.
    + repeat constructor; apply Hwait.
    + intros g' e' [= <- _]. reflexivity.
Qed.

Lemma in_reads (t : list action) :
  (forall a, In a t -> is_read a = false) -> reads t = 0%nat.
Proof. intros H. apply reads_none. now apply Forall_forall. Qed.

(** X13: Without [-I] there is no interval: the program reads the counters at
    most once, at the end, and no line of any report carries a time
    stamp. *)
Theorem no_interval_single_report (env : environment) (opts : list opt)
    (prog : list string) :
  existsb is_opt_I opts = false ->
  (forall a, In a (trace (main env opts prog)) -> is_ts a = false)
  /\ (reads (trace (main env opts prog)) <= 1)%nat.
Proof.
  intros HI.
  assert (forall t, Forall (fun a => is_late a = false) t ->
                    Forall (fun a => is_read a = false /\ is_ts a = false) t)
    as Hnl.
  { intros t. apply Forall_impl.
    intros a Ha. destruct a; try discriminate; auto. }
  assert (forall t, Forall (fun a => is_read a = false /\ is_ts a = false) t ->
                    (forall a, In a t -> is_ts a = false)
                    /\ (reads t <= 1)%nat) as Hfin.
  { intros t Ht. split.
    - intros a Ha. rewrite Forall_forall in Ht. now apply Ht.
    - rewrite reads_none; [lia|]. eapply Forall_impl; [|exact Ht].
      intros a [Ha _]. exact Ha. }
  destruct (main_shape env opts prog)
    as [[Hearly _] | (l & head & Hg & Hhead & Ht & _ & _)].
  - apply Hfin, Hnl. eapply Forall_impl; [|exact Hearly].
    intros a [Ha _]. exact Ha.
  - rewrite Ht. clear Ht.
    destruct (getopt_loop_flags _ _ _ Hg) as (_ & _ & Hi & _).
    specialize (Hi HI). cbn [interval init_locals] in Hi.
    apply Hnl in Hhead.
    destruct (after_fork_cases env l
                (parsed_list alloc_eventlist (specs_to_parse opts)) prog)
      as [[_ ->] | [[_ ->] | [_ ->]]].
    + apply Hfin, Forall_app. split; [exact Hhead | repeat constructor].
    + apply Hfin, Forall_app. split; [exact Hhead|].
      constructor; [auto|]. eapply Forall_impl; [|apply child_actions].
      intros a Ha. destruct a; try discriminate; auto.
    + rewrite measure_eq. cbv zeta.
      destruct (fst (setup_events_cpumask _ _ _ _) <? 0); cbn [fst].
      { apply Hfin, Forall_app. split; [exact Hhead | repeat constructor]. }
      set (e1 := snd (setup_events_cpumask _ _ _ _)).
      rewrite run_measurement_eq. cbn [fst]. rewrite Hi.
      change (fst (arm_timer 0)) with (@nil action). cbn [app].
      assert (Forall (fun a => is_read a = false /\ is_ts a = false)
                     (fst (wait_loops env l e1 (env_fork env)))
              /\ forall g' e', snd (wait_loops env l e1 (env_fork env))
                               = inl (g', e') -> starttime g' = 0)
        as [Hwl Hst].
      { unfold wait_loops. rewrite Hi. cbn [Z.eqb negb].
        destruct (0 <=? env_fork env).
        - rewrite bind_emit. cbn [fst snd].
          destruct (measure_loop_unarmed (Waitpid (env_fork env))
                      (env_wakes env) (mk_globals false 0) e1 (no_aggr l)
                      (fun _ => conj eq_refl eq_refl) eq_refl) as [M1 M2].
          split; [constructor; auto | exact M2].
        - apply (measure_loop_unarmed Pause (env_wakes env)
                   (mk_globals false 0) e1 (no_aggr l)
                   (fun _ => conj eq_refl eq_refl) eq_refl). }
      assert (Forall (fun a => is_read a = false /\ is_ts a = false)
                     (head ++ Fork (env_fork env)
                        :: Setup_events_cpumask
                             (parsed_list alloc_eventlist
                                (specs_to_parse opts))
                             (measure_all l) (env_fork env) (cpumask l)
                             (fst (setup_events_cpumask
                                     (parsed_list alloc_eventlist
                                        (specs_to_parse opts))
                                     (measure_all l) (env_fork env)
                                     (cpumask l)))
                        :: fst (dump_attr l e1)
                        ++ Signal_sigint
                        :: fst (wait_loops env l e1 (env_fork env))))
        as Hbefore.
      { apply Forall_app. split; [exact Hhead|].
        constructor; [auto|]. constructor; [auto|].
        apply Forall_app. split.
        - unfold dump_attr. destruct (verbose l =? 0); repeat constructor.
        - constructor; [auto | exact Hwl]. }
      destruct (snd (wait_loops env l e1 (env_fork env)))
        as [[g' e']|o] eqn:Hs.
      * rewrite final_report_eq. cbn [fst]. rewrite (Hst g' e' eq_refl).
        cbn [Z.eqb negb andb].
        match goal with
        | |- context [head ++ ?x :: ?y :: ?d ++ Signal_sigint :: ?w ++ ?f] =>
            replace (head ++ x :: y :: d ++ Signal_sigint :: w ++ f)
              with ((head ++ x :: y :: d ++ Signal_sigint :: w) ++ f)
              by (rewrite <- !app_assoc; cbn [app];
                  rewrite <- !app_assoc; reflexivity)
        end.
        split.
        -- intros a Ha. apply in_app_iff in Ha. destruct Ha as [Ha | Ha].
           ++ rewrite Forall_forall in Hbefore. now apply Hbefore.
           ++ destruct Ha as [<- | Ha]; [reflexivity|].
              destruct a; try reflexivity.
              apply print_data_ts_in in Ha. destruct Ha as [Hp _].
              rewrite andb_false_r in Hp. discriminate.
        -- rewrite reads_app. rewrite (reads_none _
             (Forall_impl _ (fun a H => proj1 H) Hbefore)).
           change (Read_all_events e' :: ?t) with ([Read_all_events e'] ++ t).
           rewrite reads_app, reads_print_data. cbn. lia.
      * rewrite app_nil_r. apply Hfin. exact Hbefore.
Qed.

Lemma measure_loop_prints (P : action -> Prop) (wait : Z -> action)
    (armed : bool) (ws : list wake) (g : globals) (e : eventlist)
    (na : bool) :
  (forall a, is_print a = false -> P a) ->
  (forall e' ts pts,
      Forall P (print_data event_scaled_value e' ts pts na)) ->
  (forall r, is_print (wait r) = false) ->
  Forall P (fst (measure_loop wait armed ws g e na)).
Proof.
  intros Hnp Hpd Hwait. revert g e.
  induction ws as [|w rest IH]; intros g e; [constructor|].
  rewrite measure_loop_cons. cbv zeta. unfold cont_measure.
  destruct (_ && _); rewrite bind_emit, bind_emits; cbn [fst snd app].
  - constructor; [apply Hnp, Hwait|]. constructor; [now apply Hnp|].
    apply Forall_app. split; [apply Hpd | apply IH].
  - constructor; [apply Hnp, Hwait | constructor].
Qed.

Lemma run_measurement_prints (P : action -> Prop) (env : environment)
    (l : locals) (e : eventlist) (pid : Z) :
  (forall a, is_print a = false -> P a) ->
  (forall e' ts pts,
      Forall P (print_data event_scaled_value e' ts pts (no_aggr l))) ->
  Forall P (fst (run_measurement env l e pid)).
Proof.
  intros Hnp Hpd. rewrite run_measurement_eq. cbn [fst].
  constructor; [now apply Hnp|]. apply Forall_app. split.
  { unfold arm_timer. destruct (interval l =? 0); [constructor|].
    rewrite bind_emit. repeat constructor; now apply Hnp. }
  apply Forall_app. split.
  { unfold wait_loops. destruct (0 <=? pid).
    - rewrite bind_emit. cbn [fst]. constructor; [now apply Hnp|].
      now apply measure_loop_prints.
    - now apply measure_loop_prints. }
  destruct (snd (wait_loops env l e pid)) as [[g' e']|o]; [|constructor].
  rewrite final_report_eq. cbn [fst].
  constructor; [now apply Hnp | apply Hpd].
Qed.

(** X14: [-A] decides the mode of every report of a run, interval reports and
    final report alike: with [-A] among the options no aggregate line is
    ever printed, without it no per-CPU line. *)
Theorem report_mode (env : environment) (opts : list opt)
    (prog : list string) (a : action) :
  In a (trace (main env opts prog)) ->
  if existsb is_opt_A opts then is_aggr_line a = false
  else is_cpu_line a = false.
Proof.
  set (P := fun x : action => if existsb is_opt_A opts
                              then is_aggr_line x = false
                              else is_cpu_line x = false).
  assert (forall x, is_print x = false -> P x) as Hnp.
  { intros x Hx. unfold P. destruct x; try discriminate;
      destruct (existsb is_opt_A opts); reflexivity. }
  assert (forall t, Forall (fun x => is_late x = false) t -> Forall P t)
    as Hnl.
  { intros t. apply Forall_impl. intros x Hx. apply Hnp.
    destruct x; try discriminate; reflexivity. }
  enough (Forall P (trace (main env opts prog))) as HP.
  { intros Ha. rewrite Forall_forall in HP. now apply HP. }
  destruct (main_shape env opts prog)
    as [[Hearly _] | (l & head & Hg & Hhead & Ht & _ & _)].
  - apply Hnl. eapply Forall_impl; [|exact Hearly].
    intros x [Hx _]. exact Hx.
  - rewrite Ht. clear Ht.
    destruct (getopt_loop_flags _ _ _ Hg) as (Hna & _).
    cbn [no_aggr init_locals orb] in Hna.
    apply Forall_app. split; [now apply Hnl|].
    constructor; [now apply Hnp|].
    destruct (after_fork_cases env l
                (parsed_list alloc_eventlist (specs_to_parse opts)) prog)
      as [[_ ->] | [[_ ->] | [_ ->]]].
    + repeat constructor. now apply Hnp.
    + eapply Forall_impl; [|apply child_actions].
      intros x Hx. apply Hnp. now destruct x.
    + rewrite measure_eq. cbv zeta.
      destruct (fst (setup_events_cpumask _ _ _ _) <? 0); cbn [fst].
      { repeat constructor. now apply Hnp. }
      constructor; [now apply Hnp|]. apply Forall_app. split.
      * unfold dump_attr. destruct (verbose l =? 0); repeat constructor.
        now apply Hnp.
      * apply run_measurement_prints; [exact Hnp|].
        intros e' ts pts. unfold P. rewrite <- Hna.
        apply print_data_line_kind.
Qed.

(** *** Verbose mode, as a whole *)

Lemma handle_opt_verbose (o : opt) (l l' : locals) (t : list action) :
  handle_opt o l = (t, inl l') ->
  verbose l' = verbose l + (if is_opt_v o then 1 else 0).
Proof.
  destruct o; cbn [handle_opt]; try (intros [= <- <-]; cbn; lia).
  unfold handle_opt. destruct (parse_events (el l) optarg) as [r e'].
  rewrite bind_emit. destruct (r <? 0); cbn [fst snd ret stop];
    [discriminate|].
  intros [= <- <-]. cbn. lia.
Qed.

(** [verbose] counts the [-v] options: it is not 0 exactly when there is
    one. *)
Lemma getopt_loop_verbose (opts : list opt) (l l' : locals) :
  snd (getopt_loop opts l) = inl l' ->
  0 <= verbose l ->
  0 <= verbose l'
  /\ (verbose l' =? 0) = (verbose l =? 0) && negb (existsb is_opt_v opts).
Proof.
  revert l. induction opts as [|o rest IH]; intros l.
  - cbn. intros [= <-] Hv. now rewrite andb_true_r.
  - rewrite getopt_loop_cons.
    destruct (handle_opt o l) as [t [l1|o1]] eqn:Hh.
    + rewrite (bind_inl _ _ _ _ eq_refl). cbn [snd]. intros Hrest Hv.
      pose proof (handle_opt_verbose _ _ _ _ Hh) as H1.
      assert (0 <= verbose l1) as Hv1 by (destruct (is_opt_v o); lia).
      destruct (IH _ Hrest Hv1) as [G1 G2]. split; [exact G1|].
      rewrite G2. cbn [existsb]. destruct (is_opt_v o); cbn [orb negb].
      * replace (verbose l1 =? 0) with false
          by (symmetry; apply Z.eqb_neq; lia).
        now rewrite andb_false_r.
      * now replace (verbose l1) with (verbose l) by lia.
    + rewrite (bind_inr _ _ _ _ eq_refl). discriminate.
Qed.

Lemma dumps_app (t1 t2 : list action) :
  dumps (t1 ++ t2) = (dumps t1 + dumps t2)%nat.
Proof. unfold dumps. now rewrite filter_app, length_app. Qed.

Lemma dumps_none (t : list action) :
  Forall (fun a => is_dump a = false) t -> dumps t = 0%nat.
Proof. intros H. unfold dumps. now rewrite filter_none. Qed.

Lemma setup_ok_none (t : list action) :
  Forall (fun a => is_setup a = false) t -> existsb is_setup_ok t = false.
Proof.
  induction 1 as [|a t Ha _ IH]; [reflexivity|].
  cbn [existsb]. rewrite IH. destruct a; try discriminate; reflexivity.
Qed.

Lemma not_late_quiet (t : list action) :
  Forall (fun a => is_late a = false) t ->
  Forall (fun a => is_dump a = false) t
  /\ Forall (fun a => is_setup a = false) t.
Proof.
  intros H. split; eapply Forall_impl; try exact H;
    intros a Ha; destruct a; try discriminate; reflexivity.
Qed.

(** The dump happens once when at least one [-v] is given and the
    counters were opened, and never otherwise. *)
Lemma dumps_count (env : environment) (opts : list opt)
    (prog : list string) :
  dumps (trace (main env opts prog))
  = if existsb is_opt_v opts
       && existsb is_setup_ok (trace (main env opts prog))
    then 1%nat else 0%nat.
Proof.
  destruct (main_shape env opts prog)
    as [[Hearly _] | (l & head & Hg & Hhead & Ht & _ & _)].
  - assert (Forall (fun a => is_late a = false) (trace (main env opts prog)))
      as Hq by (eapply Forall_impl; [|exact Hearly]; intros a [Ha _];
                exact Ha).
    destruct (not_late_quiet _ Hq) as [Hd Hs].
    rewrite (dumps_none _ Hd), (setup_ok_none _ Hs), andb_false_r.
    reflexivity.
  - rewrite Ht. clear Ht.
    destruct (getopt_loop_verbose _ _ _ Hg (Z.le_refl 0)) as [_ Hv].
    cbn [verbose init_locals Z.eqb andb] in Hv.
    destruct (not_late_quiet _ Hhead) as [Hd Hs].
    rewrite dumps_app, (dumps_none _ Hd), existsb_app, (setup_ok_none _ Hs).
    cbn [Nat.add orb].
    change (Fork (env_fork env) :: ?t) with ([Fork (env_fork env)] ++ t).
    rewrite dumps_app, existsb_app. cbn [dumps filter is_dump List.length
      existsb is_setup_ok orb Nat.add].
    destruct (after_fork_cases env l
                (parsed_list alloc_eventlist (specs_to_parse opts)) prog)
      as [[_ ->] | [[_ ->] | [_ ->]]].
    + cbn. now rewrite andb_false_r.
    + rewrite dumps_none, setup_ok_none, andb_false_r; [reflexivity| |];
        (eapply Forall_impl; [|apply child_actions]);
        intros a Ha; now destruct a.
    + rewrite measure_eq. cbv zeta.
      destruct (fst (setup_events_cpumask _ _ _ _) <? 0) eqn:Hneg;
        cbn [fst].
      * cbn [dumps filter is_dump List.length existsb is_setup_ok orb].
        apply Z.ltb_lt in Hneg.
        replace (0 <=? fst (setup_events_cpumask _ _ _ _)) with false
          by (symmetry; apply Z.leb_gt; exact Hneg).
        now rewrite andb_false_r.
      * apply Z.ltb_ge in Hneg.
        set (e1 := snd (setup_events_cpumask _ _ _ _)).
        change (?s :: ?d ++ ?r) with ([s] ++ d ++ r).
        rewrite !dumps_app. cbn [existsb app is_setup_ok].
        replace (0 <=? fst (setup_events_cpumask _ _ _ _)) with true
          by (symmetry; apply Z.leb_le; exact Hneg).
        cbn [orb]. rewrite andb_true_r.
        rewrite (dumps_none (fst (run_measurement env l e1 (env_fork env)))).
        2:{ eapply Forall_impl; [|apply run_measurement_actions].
            intros a Ha. now destruct a. }
        unfold dump_attr. rewrite Hv.
        destruct (existsb is_opt_v opts); reflexivity.
Qed.

(** C8: the [-v] options change nothing but the dump.  The run without
    them ends the same way and its trace, counter values included, is
    the trace of the run with them minus the dump.  With at least one
    [-v] the dump happens, once, when the counters were opened, and never
    otherwise.  A dump is the output of [print_event_list_attr] on the
    list [setup_events_cpumask] just returned with a non-negative value,
    one line per handle for the dump of the specification; no action of
    the measurement precedes it and no second dump follows. *)
Theorem verbose_only_dumps (env : environment) (opts : list opt)
    (prog : list string) :
  result (main env (without_v opts) prog) = result (main env opts prog)
  /\ trace (main env (without_v opts) prog)
     = without_dump (trace (main env opts prog))
  /\ dumps (trace (main env opts prog))
     = (if existsb is_opt_v opts
           && existsb is_setup_ok (trace (main env opts prog))
        then 1%nat else 0%nat)
  /\ forall pre e lines post,
       trace (main env opts prog)
       = pre ++ Print_event_list_attr e lines :: post ->
       lines = print_event_list_attr e
       /\ (forall attr_line,
              (forall x, print_event_list_attr x
                         = Session.print_event_list_attr attr_line x) ->
              List.length lines = handles e)
       /\ (exists pre' e0 ma pid mask r,
             pre = pre' ++ [Setup_events_cpumask e0 ma pid mask r]
             /\ 0 <= r
             /\ e = snd (setup_events_cpumask e0 ma pid mask))
       /\ Forall (fun a => is_measurement a = false) pre
       /\ Forall (fun a => is_dump a = false) post.
Proof.
  destruct (without_v_erases_dump env opts prog) as (H1 & H2 & H3).
  split; [exact H1|]. split; [exact H2|]. split; [apply dumps_count|].
  intros pre e lines post Ht.
  destruct (H3 pre e lines post Ht) as (Hl & Hs & Hm & Hd).
  split; [exact Hl|]. split; [|auto].
  intros attr_line Hspec. rewrite Hl, Hspec.
  apply print_event_list_attr_length.
Qed.

End MoreProgramFacts.

(** ** More runs on the concrete machine *)

Lemma interval_reports_witness :
  interval Demo.locals_plain = 0
  /\ reads (fst (@wait_loops Demo.library Demo.env_interval
                   Demo.locals_plain Demo.el_cycles_open 100)) = 0%nat.
Proof.
  assert (interval Demo.locals_plain = 0) as H by reflexivity.
  split; [exact H|].
  exact (proj2 (proj2 (@interval_reports Demo.library Demo.env_interval
                         Demo.locals_plain Demo.el_cycles_open 100)) H).
Defined.

Lemma time_stamps_from_first_tick_witness :
  w_time_start (@mk_wake Demo.library (-1) true Demo.counters 1000 1000) <> 0
  /\ In (Printf_ts 1500)
        (fst (@run_measurement Demo.library Demo.env_interval
                Demo.locals_interval Demo.el_cycles_open 100))
  /\ (1500 = 4000 - 1000
      \/ exists w,
           In w (env_wakes Demo.env_interval) /\ 1500 = w_time w - 1000).
Proof.
  assert (w_time_start (@mk_wake Demo.library (-1) true Demo.counters
                          1000 1000) <> 0) as H0
    by (simpl; discriminate).
  assert (In (Printf_ts 1500)
             (fst (@run_measurement Demo.library Demo.env_interval
                     Demo.locals_interval Demo.el_cycles_open 100))) as Hin
    by (vm_compute; do 14 right; left; reflexivity).
  split; [exact H0|]. split; [exact Hin|].
  exact (@time_stamps_from_first_tick Demo.library Demo.env_interval
           Demo.locals_interval Demo.el_cycles_open 100 _ _ 1500
           eq_refl H0 Hin).
Defined.


Lemma fork_failure_exits_witness :
  env_fork Demo.env_no_fork < 0
  /\ In (Fork (env_fork Demo.env_no_fork))
        (trace (@main Demo.library Demo.env_no_fork [Opt_a] []))
  /\ result (@main Demo.library Demo.env_no_fork [Opt_a] []) = Exited 1.
Proof.
  assert (env_fork Demo.env_no_fork < 0) as Hf by (simpl; lia).
  assert (In (Fork (env_fork Demo.env_no_fork))
             (trace (@main Demo.library Demo.env_no_fork [Opt_a] [])))
    as Hin by (vm_compute; do 5 right; left; reflexivity).
  split; [exact Hf|]. split; [exact Hin|].
  exact (proj2 (@fork_failure_exits Demo.library Demo.env_no_fork
                  [Opt_a] [] Hf Hin)).
Defined.

Lemma rejected_option_exits_witness :
  existsb is_opt_rejected [Opt_a; Opt_p "1"; Opt_e "cycles"] = true
  /\ result (@main Demo.library Demo.env
               [Opt_a; Opt_p "1"; Opt_e "cycles"] ["true"%string])
     = Exited 1.
Proof.
  assert (existsb is_opt_rejected [Opt_a; Opt_p "1"; Opt_e "cycles"] = true)
    as H by reflexivity.
  split; [exact H|].
  exact (proj1 (@rejected_option_exits Demo.library Demo.env
                  [Opt_a; Opt_p "1"; Opt_e "cycles"] ["true"%string] H)).
Defined.

Lemma setup_arguments_witness :
  In (Setup_events_cpumask Demo.el_cycles true 100 (Some "0"%string) 0)
     (trace (@main Demo.library Demo.env
               [Opt_C "1"; Opt_a; Opt_C "0"; Opt_e "cycles"] []))
  /\ Some "0"%string = cpumask_of [Opt_C "1"; Opt_a; Opt_C "0"; Opt_e "cycles"].
Proof.
  assert (In (Setup_events_cpumask Demo.el_cycles true 100
                (Some "0"%string) 0)
             (trace (@main Demo.library Demo.env
                       [Opt_C "1"; Opt_a; Opt_C "0"; Opt_e "cycles"] [])))
    as Hin by (vm_compute; do 6 right; left; reflexivity).
  split; [exact Hin|].
  exact (proj1 (proj2 (proj2 (proj2 (proj2
    (@setup_arguments Demo.library Demo.env
       [Opt_C "1"; Opt_a; Opt_C "0"; Opt_e "cycles"] [] _ _ _ _ _ Hin)))))).
Defined.

Lemma measurement_follows_setup_witness :
  trace (@main Demo.library Demo.env [Opt_a; Opt_e "cycles"] [])
  = firstn 8 (trace (@main Demo.library Demo.env
                       [Opt_a; Opt_e "cycles"] []))
    ++ Write_pipe
    :: skipn 9 (trace (@main Demo.library Demo.env
                         [Opt_a; Opt_e "cycles"] []))
  /\ is_measurement Write_pipe = true
  /\ exists s,
       In s (firstn 8 (trace (@main Demo.library Demo.env
                                [Opt_a; Opt_e "cycles"] [])))
       /\ is_setup_ok s = true.
Proof.
  assert (trace (@main Demo.library Demo.env [Opt_a; Opt_e "cycles"] [])
          = firstn 8 (trace (@main Demo.library Demo.env
                               [Opt_a; Opt_e "cycles"] []))
            ++ Write_pipe
            :: skipn 9 (trace (@main Demo.library Demo.env
                                 [Opt_a; Opt_e "cycles"] []))) as H
    by (vm_compute; reflexivity).
  assert (is_measurement Write_pipe = true) as Hm by reflexivity.
  split; [exact H|]. split; [exact Hm|].
  exact (@measurement_follows_setup Demo.library Demo.env
           [Opt_a; Opt_e "cycles"] [] _ _ _ H Hm).
Defined.

Lemma no_interval_single_report_witness :
  existsb is_opt_I [Opt_a; Opt_e "cycles"] = false
  /\ (reads (trace (@main Demo.library Demo.env_interval
                      [Opt_a; Opt_e "cycles"] [])) <= 1)%nat.
Proof.
  assert (existsb is_opt_I [Opt_a; Opt_e "cycles"] = false) as H
    by reflexivity.
  split; [exact H|].
  exact (proj2 (@no_interval_single_report Demo.library Demo.env_interval
                  [Opt_a; Opt_e "cycles"] [] H)).
Defined.

Lemma report_mode_witness :
  In (Printf_cpu 1 "cycles" 200)
     (trace (@main Demo.library Demo.env
               [Opt_a; Opt_A; Opt_e "cycles"] []))
  /\ is_aggr_line (Printf_cpu 1 "cycles" 200) = false.
Proof.
  assert (In (Printf_cpu 1 "cycles" 200)
             (trace (@main Demo.library Demo.env
                       [Opt_a; Opt_A; Opt_e "cycles"] []))) as Hin
    by (vm_compute; do 14 right; left; reflexivity).
  split; [exact Hin|].
  exact (@report_mode Demo.library Demo.env
           [Opt_a; Opt_A; Opt_e "cycles"] [] _ Hin).
Defined.

Lemma verbose_only_dumps_witness :
  trace (@main Demo.library Demo.env [Opt_v; Opt_a; Opt_e "cycles"] [])
  = firstn 7 (trace (@main Demo.library Demo.env
                       [Opt_v; Opt_a; Opt_e "cycles"] []))
    ++ Print_event_list_attr Demo.el_cycles_open
         ["cycles"%string; "cycles"%string]
    :: skipn 8 (trace (@main Demo.library Demo.env
                         [Opt_v; Opt_a; Opt_e "cycles"] []))
  /\ (forall x, @print_event_list_attr Demo.library x
                = Session.print_event_list_attr Demo.attr_line x)
  /\ List.length ["cycles"%string; "cycles"%string]
     = handles Demo.el_cycles_open
  /\ dumps (trace (@main Demo.library Demo.env
                      [Opt_v; Opt_a; Opt_e "cycles"] [])) = 1%nat
  /\ dumps (trace (@main Demo.library Demo.env
                      [Opt_a; Opt_e "cycles"] [])) = 0%nat.
Proof.
  assert (trace (@main Demo.library Demo.env
                   [Opt_v; Opt_a; Opt_e "cycles"] [])
          = firstn 7 (trace (@main Demo.library Demo.env
                               [Opt_v; Opt_a; Opt_e "cycles"] []))
            ++ Print_event_list_attr Demo.el_cycles_open
                 ["cycles"%string; "cycles"%string]
            :: skipn 8 (trace (@main Demo.library Demo.env
                                 [Opt_v; Opt_a; Opt_e "cycles"] []))) as Ht
    by (vm_compute; reflexivity).
  assert (forall x, @print_event_list_attr Demo.library x
                    = Session.print_event_list_attr Demo.attr_line x) as Hs
    by (intros x; reflexivity).
  split; [exact Ht|]. split; [exact Hs|]. split; [|split].
  - exact (proj1 (proj2
      (proj2 (proj2 (proj2
         (@verbose_only_dumps Demo.library Demo.env
            [Opt_v; Opt_a; Opt_e "cycles"] []))) _ _ _ _ Ht))
      Demo.attr_line Hs).
  - exact (proj1 (proj2 (proj2
      (@verbose_only_dumps Demo.library Demo.env
         [Opt_v; Opt_a; Opt_e "cycles"] [])))).
  - exact (proj1 (proj2 (proj2
      (@verbose_only_dumps Demo.library Demo.env
         [Opt_a; Opt_e "cycles"] [])))).
Defined.
